(** * lenskit: sharing models across processes, and top-N analysis

    A shallow embedding of [lenskit/sharing/__init__.py] and
    [lenskit/topn.py].  Python objects with mutable attributes become
    records threaded through a state and exception monad; the file
    system, the shared-memory name space, the process environment and the
    thread-local store state become fields of an explicit world.  Library
    code that is not part of the repository ([pickle], [binpickle],
    [tempfile]) is taken as parameters: section variables for the stores,
    the class [Library] for the handles.  For the analysis, a data frame
    is a row count with named columns of cells. *)

From Stdlib Require Import ZArith.
From Stdlib.Strings Require Import Byte.
From stdpp Require Import base strings gmap list stringmap sorting.


(** ** Python exceptions and the state/exception monad *)

Module Py.

(** The exception classes the module can raise or meet.  [OSError] stands
    for [IOError] as well (they are one class in Python 3), and
    [FileNotFoundError] is one of its subclasses. *)
Inductive exn : Type :=
| OSError (msg : string)
| FileNotFoundError (what : string)
| BufferError
| UnpicklingError
| ImportError (name : string)
| AssertionError
| IndexError
| AttributeError (attr : string)
| NameError (name : string)
| TypeError (msg : string)
| ValueError (msg : string).

(** [isinstance(e, IOError)]: what an [except IOError] clause catches. *)
Definition is_IOError (e : exn) : bool :=
  match e with
  | OSError _ | FileNotFoundError _ => true
  | _ => false
  end.

(** A call either returns a value or raises; both leave a state behind,
    since attribute writes made before a [raise] persist. *)
Inductive outcome (S A : Type) : Type :=
| Ok (a : A) (s : S)
| Raise (e : exn) (s : S).
Arguments Ok {S A} a s.
Arguments Raise {S A} e s.

Definition M (S A : Type) : Type := S → outcome S A.

Definition ret {S A} (a : A) : M S A := λ s, Ok a s.
Definition raise {S A} (e : exn) : M S A := λ s, Raise e s.
Definition bind {S A B} (c : M S A) (k : A → M S B) : M S B :=
  λ s, match c s with
       | Ok a s' => k a s'
       | Raise e s' => Raise e s'
       end.
Definition gets {S A} (f : S → A) : M S A := λ s, Ok (f s) s.
Definition modify {S} (f : S → S) : M S unit := λ s, Ok tt (f s).

(** [try: c  except IOError as e: h e] *)
Definition try_except_IOError {S A} (c : M S A) (h : exn → M S A) : M S A :=
  λ s, match c s with
       | Ok a s' => Ok a s'
       | Raise e s' => if is_IOError e then h e s' else Raise e s'
       end.

(** [try: c  finally: f] where [f] itself does not raise. *)
Definition try_finally {S A} (c : M S A) (f : S → S) : M S A :=
  λ s, match c s with
       | Ok a s' => Ok a (f s')
       | Raise e s' => Raise e (f s')
       end.

(** The state a call leaves behind, whatever its outcome. *)
Definition final {S A} (o : outcome S A) : S :=
  match o with Ok _ s => s | Raise _ s => s end.

Definition raised {S A} (o : outcome S A) : option exn :=
  match o with Ok _ _ => None | Raise e _ => Some e end.

(** [for x in xs: body x] *)
Fixpoint for_each {S A} (xs : list A) (body : A → M S unit) : M S unit :=
  match xs with
  | [] => ret tt
  | x :: xs' => bind (body x) (λ _, for_each xs' body)
  end.

End Py.

Import Py.

Notation "x <- c ;; k" := (bind c (λ x, k))
  (at level 100, c at next level, right associativity,
   format "'[v' x  <-  c  ;;  '/' k ']'").
Notation "c ;;; k" := (bind c (λ _, k))
  (at level 100, right associativity,
   format "'[v' c  ;;;  '/' k ']'").

(** ** Stores: re-entrant activation and the activation stack *)

Module Store.

(** Stores are compared with [is]; an object identity is a number. *)
Definition store_id := nat.

(** Calls of the overridable hooks, in the order they happen. *)
Inductive event : Type :=
| EInit (s : store_id)
| EShutdown (s : store_id).

Global Instance event_eq_dec : EqDecision event.
Proof. solve_decision. Defined.

(** [act_count]: the [_act_count] attribute of each store (absent: the
    class attribute, 0).  [active]: the thread's [_store_state.active]
    list.  [calls]: the hook calls made so far. *)
Record state : Type := mkState {
  act_count : gmap store_id Z;
  active : list store_id;
  files : gmap string (list byte);
  calls : list event
}.

Definition _act_count (self : store_id) (st : state) : Z :=
  default 0%Z (act_count st !! self).

Definition set_act_count (self : store_id) (c : Z) (st : state) : state :=
  mkState (<[self := c]> (act_count st)) (active st) (files st) (calls st).

Definition set_active (l : list store_id) (st : state) : state :=
  mkState (act_count st) l (files st) (calls st).

Definition record_call (e : event) (st : state) : state :=
  mkState (act_count st) (active st) (files st) (calls st ++ [e]).

(** [BaseModelStore.init] and [BaseModelStore.shutdown]: the bodies are
    empty; the call itself is recorded. *)
Definition init (self : store_id) : M state unit :=
  modify (record_call (EInit self)).

Definition shutdown (self : store_id) : M state unit :=
  modify (record_call (EShutdown self)).

Definition _active_stores : M state (list store_id) := gets active.

Definition __enter__ (self : store_id) : M state store_id :=
  c <- gets (_act_count self) ;;
  (if decide (c = 0%Z) then init self else ret tt) ;;;
  c <- gets (_act_count self) ;;
  modify (set_act_count self (c + 1)%Z) ;;;
  stores <- _active_stores ;;
  modify (set_active (stores ++ [self])) ;;;
  ret self.

(** The [assert] is executed, as the interpreter does unless it runs
    with [-O]; [stores[-1]] on an empty list raises [IndexError]. *)
Definition __exit__ (self : store_id) : M state unit :=
  c <- gets (_act_count self) ;;
  modify (set_act_count self (c - 1)%Z) ;;;
  c <- gets (_act_count self) ;;
  (if decide (c = 0%Z) then shutdown self else ret tt) ;;;
  stores <- _active_stores ;;
  match last stores with
  | None => raise IndexError
  | Some top =>
      if decide (top = self)
      then modify (set_active (removelast stores))
      else raise AssertionError
  end.

(** The state [__exit__] is in when it reaches its assertion. *)
Definition before_assert (self : store_id) (st : state) : state :=
  mkState (<[self := (_act_count self st - 1)%Z]> (act_count st))
    (active st) (files st)
    (calls st ++ if decide ((_act_count self st - 1)%Z = 0%Z)
                 then [EShutdown self] else []).

(** A thread with no store and no file. *)
Definition state0 : state := mkState ∅ [] ∅ [].

(** *** Nested use of one store *)

Inductive op : Type := Enter | Exit.

Definition step (self : store_id) (o : op) : M state unit :=
  match o with
  | Enter => __enter__ self ;;; ret tt
  | Exit => __exit__ self
  end.

(** [with store: ...] blocks executed one after the other or inside each
    other, flattened to the sequence of enters and exits they perform. *)
Definition run (self : store_id) (ops : list op) : M state unit :=
  for_each ops (step self).

(** A sequence is nested when no prefix exits more often than it enters;
    [depth] is the number of enclosing activations. *)
Fixpoint nested (depth : nat) (ops : list op) : bool :=
  match ops with
  | [] => true
  | Enter :: ops' => nested (S depth) ops'
  | Exit :: ops' =>
      match depth with
      | O => false
      | S d => nested d ops'
      end
  end.

(** The hook calls the specification asks for, read off the activation
    count alone: [init] on a move from zero to nonzero, [shutdown] on a
    move from nonzero to zero, nothing otherwise. *)
Definition next_count (c : Z) (o : op) : Z :=
  match o with
  | Enter => (c + 1)%Z
  | Exit => (c - 1)%Z
  end.

Definition transition_calls (self : store_id) (c c' : Z) : list event :=
  if decide (c = 0%Z ∧ c' ≠ 0%Z) then [EInit self]
  else if decide (c ≠ 0%Z ∧ c' = 0%Z) then [EShutdown self]
  else [].

Fixpoint expected_calls (self : store_id) (c : Z) (ops : list op) : list event :=
  match ops with
  | [] => []
  | o :: ops' =>
      transition_calls self c (next_count c o)
        ++ expected_calls self (next_count c o) ops'
  end.

(** *** Loading serialized models *)

(** Names bound at module level in [lenskit/sharing/__init__.py]: its
    imports, functions and classes.  A name that is neither a local of the
    running function nor one of these (nor a builtin) raises [NameError]. *)
Definition module_globals : list string :=
  [ "sys"; "os"; "pathlib"; "warnings"; "abstractmethod"; "ABC";
    "contextmanager"; "tempfile"; "threading"; "logging"; "pickle"; "shm";
    "binpickle"; "_log"; "_store_state"; "_save_mode"; "_active_stores";
    "sharing_mode"; "in_share_context"; "PersistedModel"; "persist";
    "persist_binpickle"; "BPKPersisted"; "persist_shm"; "SHMPersisted";
    "get_store"; "BaseModelClient"; "SharedObject"; "BaseModelStore";
    "NoopModelStore"; "FileModelStore"; "SHMModelStore" ].

Definition load_global {S} (name : string) : M S unit :=
  if bool_decide (name ∈ module_globals) then ret tt
  else raise (NameError name).

(** [open(path, 'rb')] followed by reading the whole file. *)
Definition open_rb (path : string) : M state (list byte) :=
  λ st, match files st !! path with
        | Some data => Ok data st
        | None => Raise (FileNotFoundError path) st
        end.

Section BaseModelStore.

(** The abstract [put_model] of the store at hand, and the two library
    deserializers: [pickle.load] on the bytes of a file, and
    [binpickle.load] on a path. *)
Variables Model Key : Type.
Variable put_model : store_id → Model → M state Key.
Variable pickle_load : list byte → option Model.
Variable binpickle_load : string → M state Model.

(** Inside [put_serialized] the parameter [binpickle] shadows the module
    of that name, and the branch taken when it is true goes through the
    global name [bpk].  That branch has no [return]: its result is
    [None]. *)
Definition put_serialized (self : store_id) (path : string)
    (binpickle : bool) : M state (option Key) :=
  if binpickle then
    load_global "bpk" ;;;
    model <- binpickle_load path ;;
    put_model self model ;;;
    ret None
  else
    mf <- open_rb path ;;
    match pickle_load mf with
    | None => raise UnpicklingError
    | Some model =>
        key <- put_model self model ;;
        ret (Some key)
    end.

End BaseModelStore.

(** [NoopModelStore.put_model]: the model is its own key. *)
Definition Noop_put_model {Model} (self : store_id) (model : Model)
  : M state Model := ret model.

(** Store 1 entered, then store 2 inside it. *)
Definition two_stores : state := mkState {[1 := 1%Z; 2 := 1%Z]} [1; 2] ∅ [].

(** *** Choosing a store *)

(** What [get_store] returns: a store that is already active, or a new
    store of one of the three classes. *)
Inductive store_choice : Type :=
| Existing (s : store_id)
| NewNoopModelStore
| NewSHMModelStore
| NewFileModelStore.

(** [get_store(reuse, in_process=...)]; [shm_enabled] is the class
    attribute [SHMModelStore.ENABLED]. *)
Definition get_store (shm_enabled reuse in_process : bool) : M state store_choice :=
  stores <- _active_stores ;;
  if reuse && bool_decide (stores ≠ []) then
    match last stores with
    | Some s => ret (Existing s)
    | None => raise IndexError
    end
  else if in_process then ret NewNoopModelStore
  else if shm_enabled then ret NewSHMModelStore
  else ret NewFileModelStore.

End Store.

(** ** The shared-object wrapper and its reference-count check *)

Module Wrapper.

(** What a wrapper can hold: [None], or an object known by its identity. *)
Inductive value : Type :=
| VNone
| VObj (l : nat).

Global Instance value_eq_dec : EqDecision value.
Proof. solve_decision. Defined.

(** The interpreter's reference counts: of [None], and of every other
    object (absent: no reference). *)
Record heap : Type := mkHeap {
  none_refs : nat;
  obj_refs : gmap nat nat
}.

Definition refcount (h : heap) (v : value) : nat :=
  match v with
  | VNone => none_refs h
  | VObj l => default 0 (obj_refs h !! l)
  end.

(** [sys.getrefcount]: the count includes the reference held by the call
    itself, so it is never zero. *)
Definition getrefcount (v : value) (h : heap) : nat := S (refcount h v).

(** Dropping one reference. *)
Definition decref (v : value) (h : heap) : heap :=
  match v with
  | VNone => mkHeap (pred (none_refs h)) (obj_refs h)
  | VObj l => mkHeap (none_refs h) (alter pred l (obj_refs h))
  end.

(** A [ResourceWarning] about [about], issued with [stacklevel]. *)
Record warning : Type := mkWarning {
  about : value;
  stacklevel : nat
}.

(** Instance attributes of a [SharedObject].  [object] is [None] once the
    attribute has been deleted.  [_rc] is [None] until [__enter__] stores
    a count (the class attribute is Python's [None]); [_exiting] is [None]
    while only the class attribute ([False]) exists. *)
Record SharedObject : Type := mkSharedObject {
  object : option value;
  _rc : option nat;
  _exiting : option bool
}.

Record state : Type := mkState {
  self : SharedObject;
  hp : heap;
  warnings : list warning;
  debug_log : list (value * nat * nat)
}.

Definition set_self (w : SharedObject) (st : state) : state :=
  mkState w (hp st) (warnings st) (debug_log st).

Definition set_hp (h : heap) (st : state) : state :=
  mkState (self st) h (warnings st) (debug_log st).

(** [SharedObject(obj)] *)
Definition __init__ (obj : value) : SharedObject :=
  mkSharedObject (Some obj) None None.

(** Reading [self.object]; the class defines no such attribute, so a
    deleted one raises. *)
Definition get_object : M state value :=
  λ st, match object (self st) with
        | Some v => Ok v st
        | None => Raise (AttributeError "object") st
        end.

(** [del self.object]: the attribute goes, and with it one reference. *)
Definition del_object : M state unit :=
  λ st, match object (self st) with
        | Some v =>
            Ok tt (mkState (mkSharedObject None (_rc (self st)) (_exiting (self st)))
                     (decref v (hp st)) (warnings st) (debug_log st))
        | None => Raise (AttributeError "object") st
        end.

(** Truth value of [self._rc]: [None] and [0] are false. *)
Definition rc_truthy (rc : option nat) : bool :=
  match rc with
  | None | Some O => false
  | Some (S _) => true
  end.

(** [rc > self._rc], evaluated only when [self._rc] is true. *)
Definition rc_exceeds (rc : nat) (base : option nat) : bool :=
  match base with
  | Some b => bool_decide (b < rc)
  | None => false
  end.

Definition warn (w : warning) : M state unit :=
  modify (λ st, mkState (self st) (hp st) (warnings st ++ [w]) (debug_log st)).

Definition log_debug (r : value * nat * nat) : M state unit :=
  modify (λ st, mkState (self st) (hp st) (warnings st) (debug_log st ++ [r])).

Definition release : M state unit :=
  o <- get_object ;;
  if decide (o = VNone) then ret tt
  else
    o <- get_object ;;
    rc <- gets (λ st, getrefcount o (hp st)) ;;
    base <- gets (λ st, _rc (self st)) ;;
    (if rc_truthy base && rc_exceeds rc base then
       log_debug (o, default 0 base, rc) ;;;
       exiting <- gets (λ st, default false (_exiting (self st))) ;;
       warn (mkWarning o (if exiting : bool then 3 else 2))
     else ret tt) ;;;
    del_object.

Definition __enter__ : M state value :=
  o <- get_object ;;
  rc <- gets (λ st, getrefcount o (hp st)) ;;
  modify (λ st, set_self (mkSharedObject (object (self st)) (Some rc)
                            (_exiting (self st))) st) ;;;
  get_object.

Definition __exit__ : M state unit :=
  modify (λ st, set_self (mkSharedObject (object (self st)) (_rc (self st))
                            (Some true)) st) ;;;
  try_finally release
    (λ st, set_self (mkSharedObject (object (self st)) (_rc (self st)) None) st).

(** The warning [release] issues for a leak: [stacklevel] is 3 when the
    call comes from [__exit__] and 2 otherwise. *)
Definition leak_warning (w : SharedObject) (o : value) : warning :=
  mkWarning o (if default false (_exiting w) then 3 else 2).

(** Two heaps: object 7 with one reference, and with two. *)
Definition heap1 : heap := mkHeap 40 {[7 := 1]}.
Definition heap2 : heap := mkHeap 40 {[7 := 2]}.

(** [NoopModelStore.get_model(key)]: the key is the model. *)
Definition Noop_get_model (key : value) : SharedObject := __init__ key.

End Wrapper.

(** ** Persisting a model for other processes *)

Module Persist.

Definition bytes : Type := list byte.

(** A Python value that can be persisted: [None] or a model object. *)
Inductive value (Model : Type) : Type :=
| VNone
| VObj (m : Model).
Arguments VNone {Model}.
Arguments VObj {Model} m.

Definition is_None {Model} (v : value Model) : bool :=
  match v with VNone => true | VObj _ => false end.

(** The library code the module calls.
    - [binpickle_dump share v]: the bytes [BinPickler.mappable(path).dump(v)]
      writes; [share] is [in_share_context()] during the dump, which the
      pickling hooks of a model may consult.
    - [binpickle_load]: [BinPickleFile(path, direct=True).load()] on the
      mapped bytes; [None] when they do not decode.
    - [pickle_dumps share v]: [pickle.dumps(v, protocol=5, buffer_callback=cb)]
      as the pickle bytes and the raw out-of-band buffers in the order
      [cb] receives them.
    - [pickle_loads data buffers]: [pickle.loads(data, buffers=buffers)].
    - [gettempdir]: the directory [tempfile] uses when given none.
    - [mkstemp_token]: the random part of the name [mkstemp] settles on,
      given the files that exist.
    - [shm_block_size n]: the size of the block the platform hands out
      for a request of [n] bytes; never less than [n]. *)
Class Library (Model : Type) : Type := {
  binpickle_dump : bool → value Model → bytes;
  binpickle_load : bytes → option (value Model);
  pickle_dumps : bool → value Model → bytes * list bytes;
  pickle_loads : bytes → list bytes → option (value Model);
  gettempdir : string;
  mkstemp_token : gmap string bytes → string;
  shm_block_size : nat → nat;
  shm_block_size_ge : ∀ n : nat, (n ≤ shm_block_size n)%nat
}.

(** Warnings sent to the module's logger. *)
Inductive log_record : Type :=
| LogWarn (what : string) (e : exn).

(** Everything outside the handles.
    - [environ]: [os.environ].
    - [shm]: whether [multiprocessing.shared_memory] could be imported
      (the module-level [shm] is not [None]).
    - [files]: the file system, path to contents.
    - [segments]: the shared-memory name space, name to block contents.
    - [close_errors]: the files whose mapped handle fails to close, with
      the exception [close()] raises.
    - [mode]: the thread-local [_store_state.mode], when set.
    - [log]: warnings logged so far. *)
Record world : Type := mkWorld {
  environ : gmap string string;
  shm : bool;
  files : gmap string bytes;
  segments : gmap string bytes;
  close_errors : gmap string exn;
  mode : option string;
  log : list log_record
}.

Definition set_files (f : gmap string bytes) (w : world) : world :=
  mkWorld (environ w) (shm w) f (segments w) (close_errors w) (mode w) (log w).

Definition set_segments (s : gmap string bytes) (w : world) : world :=
  mkWorld (environ w) (shm w) (files w) s (close_errors w) (mode w) (log w).

Definition set_mode (m : option string) (w : world) : world :=
  mkWorld (environ w) (shm w) (files w) (segments w) (close_errors w) m (log w).

Definition add_log (r : log_record) (w : world) : world :=
  mkWorld (environ w) (shm w) (files w) (segments w) (close_errors w) (mode w)
    (log w ++ [r]).

(** A method of a handle runs on the handle and the world; [in_world]
    runs a step that only touches the world. *)
Definition in_world {H A} (c : M world A) : M (H * world) A :=
  λ s, match c s.2 with
       | Ok a w' => Ok a (s.1, w')
       | Raise e w' => Raise e (s.1, w')
       end.

Definition update_self {H} (f : H → H) : M (H * world) unit :=
  modify (λ s, (f s.1, s.2)).

(** *** The sharing-mode flag *)

Definition _save_mode (w : world) : string := default "save" (mode w).

Definition in_share_context (w : world) : bool :=
  bool_decide (_save_mode w = "share").

(** [with sharing_mode(): body] *)
Definition sharing_mode {A} (body : M world A) : M world A :=
  old <- gets _save_mode ;;
  modify (set_mode (Some "share")) ;;;
  try_finally body (set_mode (Some old)).

(** *** Files *)

(** [tempfile.mkstemp(suffix, prefix, dir)] followed by [os.close(fd)]:
    an empty file now exists under the returned path. *)
Definition mkstemp `{Library Model} (suffix prefix : string)
    (dir : option string) : M world string :=
  λ w, let d := default gettempdir dir in
       let path := d +:+ "/" +:+ prefix +:+ mkstemp_token (files w) +:+ suffix in
       Ok path (set_files (<[path := []]> (files w)) w).

(** A path lies in a directory. *)
Definition in_dir (d path : string) : Prop :=
  ∃ name, path = d +:+ "/" +:+ name.

(** [pathlib.Path.unlink] *)
Definition unlink (path : string) : M world unit :=
  λ w, match files w !! path with
       | Some _ => Ok tt (set_files (delete path (files w)) w)
       | None => Raise (FileNotFoundError path) w
       end.

(** An open, memory-mapped binpickle file. *)
Record BinPickleFile : Type := mkBinPickleFile {
  bpf_path : string;
  bpf_map : bytes
}.

Definition BinPickleFile_open (path : string) : M world BinPickleFile :=
  λ w, match files w !! path with
       | Some data => Ok (mkBinPickleFile path data) w
       | None => Raise (FileNotFoundError path) w
       end.

Definition BinPickleFile_load `{Library Model} (f : BinPickleFile)
  : M world (value Model) :=
  match binpickle_load (bpf_map f) with
  | Some v => ret v
  | None => raise UnpicklingError
  end.

Definition BinPickleFile_close (f : BinPickleFile) : M world unit :=
  λ w, match close_errors w !! bpf_path f with
       | Some e => Raise e w
       | None => Ok tt w
       end.

(** *** Shared-memory blocks *)

(** A [SharedMemory] object: the segment's name and its [size]. *)
Record SharedMemory : Type := mkSharedMemory {
  blk_name : string;
  blk_size : nat
}.

(** [shm.SharedMemory(create=True, size=n)]: a zero-filled segment under
    a name no segment has yet. *)
Definition SharedMemory_create `{Library Model} (n : nat) : M world SharedMemory :=
  λ w, let name := fresh_string "psm_" (segments w) in
       let size := shm_block_size n in
       Ok (mkSharedMemory name size)
          (set_segments (<[name := replicate size x00]> (segments w)) w).

(** [block.buf[:len(ba)] = ba]: a slice assignment on a memory view
    cannot change its length. *)
Definition blit (block : SharedMemory) (ba : bytes) : M world unit :=
  if decide (length ba ≤ blk_size block) then
    modify (λ w, set_segments
                   (alter (λ old, ba ++ drop (length ba) old) (blk_name block)
                      (segments w)) w)
  else raise (ValueError "memoryview assignment: lvalue and rvalue have different structures").

(** [shm.SharedMemory(name=bn)] and the view [block.buf[:bs]]. *)
Definition SharedMemory_attach (bn : string) (bs : nat)
  : M world (bytes * SharedMemory) :=
  λ w, if shm w then
         match segments w !! bn with
         | Some data => Ok (take bs data, mkSharedMemory bn (length data)) w
         | None => Raise (FileNotFoundError bn) w
         end
       else Raise (AttributeError "SharedMemory") w.

(** [buf.close()] drops the local mapping, which the world does not
    record. *)
Definition SharedMemory_close (b : SharedMemory) : M world unit := ret tt.

(** [buf.unlink()] *)
Definition SharedMemory_unlink (b : SharedMemory) : M world unit :=
  λ w, match segments w !! blk_name b with
       | Some _ => Ok tt (set_segments (delete (blk_name b) (segments w)) w)
       | None => Raise (FileNotFoundError (blk_name b)) w
       end.

(** A descriptor [(name, size)] finds a buffer in the segments: the
    first [size] bytes of the segment [name] are the buffer. *)
Definition stored (segs : gmap string bytes) (key : string * nat)
    (buf : bytes) : Prop :=
  ∃ d, segs !! key.1 = Some d ∧ take key.2 d = buf.

(** *** File-backed handles *)

(** Attributes of a [BPKPersisted]. *)
Record BPKPersisted (Model : Type) : Type := mkBPK {
  path : string;
  bpk_is_owner : bool;
  _bpk_file : option BinPickleFile;
  bpk_model : value Model
}.
Arguments mkBPK {Model} _ _ _ _.
Arguments path {Model} _.
Arguments bpk_is_owner {Model} _.
Arguments _bpk_file {Model} _.
Arguments bpk_model {Model} _.

(** Attributes of a [SHMPersisted].  [buffers] is [None] when the
    instance has no such attribute and the class attribute [[]] shows
    through. *)
Record SHMPersisted (Model : Type) : Type := mkSHM {
  pickle_data : bytes;
  buffer_specs : list (string * nat);
  buffers : option (list SharedMemory);
  shm_is_owner : bool;
  shm_model : value Model
}.
Arguments mkSHM {Model} _ _ _ _ _.
Arguments pickle_data {Model} _.
Arguments buffer_specs {Model} _.
Arguments buffers {Model} _.
Arguments shm_is_owner {Model} _.
Arguments shm_model {Model} _.

(** What [persist] returns. *)
Inductive PersistedModel (Model : Type) : Type :=
| FileBacked (h : BPKPersisted Model)
| SharedMem (h : SHMPersisted Model).
Arguments FileBacked {Model} h.
Arguments SharedMem {Model} h.

Section Handles.

Context {Model : Type} `{!Library Model}.

Definition BPKPersisted_init (p : string) : BPKPersisted Model :=
  mkBPK p true None VNone.

Definition persist_binpickle (model : value Model) (dir : option string)
  : M world (BPKPersisted Model) :=
  p <- mkstemp ".bpk" "lkpy-" dir ;;
  sharing_mode
    (share <- gets in_share_context ;;
     modify (λ w, set_files (<[p := binpickle_dump share model]> (files w)) w)) ;;;
  ret (BPKPersisted_init p).

Definition bpk_get : M (BPKPersisted Model * world) (value Model) :=
  f <- gets (λ s, _bpk_file s.1) ;;
  match f with
  | None =>
      p <- gets (λ s, path s.1) ;;
      file <- in_world (BinPickleFile_open p) ;;
      update_self (λ h, mkBPK (path h) (bpk_is_owner h) (Some file) (bpk_model h)) ;;;
      m <- in_world (BinPickleFile_load file) ;;
      update_self (λ h, mkBPK (path h) (bpk_is_owner h) (_bpk_file h) m)
  | Some _ => ret tt
  end ;;;
  gets (λ s, bpk_model s.1).

Definition bpk_close (unlink_ : bool) : M (BPKPersisted Model * world) unit :=
  f <- gets (λ s, _bpk_file s.1) ;;
  match f with
  | Some file =>
      update_self (λ h, mkBPK (path h) (bpk_is_owner h) (_bpk_file h) VNone) ;;;
      try_except_IOError (in_world (BinPickleFile_close file))
        (λ e, p <- gets (λ s, path s.1) ;;
              in_world (modify (add_log (LogWarn p e)))) ;;;
      update_self (λ h, mkBPK (path h) (bpk_is_owner h) None (bpk_model h))
  | None => ret tt
  end ;;;
  owner <- gets (λ s, bpk_is_owner s.1) ;;
  if owner && unlink_ then
    m <- gets (λ s, bpk_model s.1) ;;
    (if is_None m then ret tt else raise AssertionError) ;;;
    (if unlink_ then
       p <- gets (λ s, path s.1) ;;
       in_world (unlink p)
     else ret tt) ;;;
    update_self (λ h, mkBPK (path h) false (_bpk_file h) (bpk_model h))
  else ret tt.

(** [__getstate__]: a copy of the instance dictionary with [is_owner]
    cleared. *)
Definition bpk_getstate (h : BPKPersisted Model) : BPKPersisted Model :=
  mkBPK (path h) false (_bpk_file h) (bpk_model h).

(** The handle unpickling builds from a pickled state.  The path is a
    string and the flag a boolean, and both arrive as sent; [file'] and
    [model'] are what the pickle round trip makes of the other two
    attributes. *)
Definition bpk_setstate (st : BPKPersisted Model)
    (file' : option BinPickleFile) (model' : value Model) : BPKPersisted Model :=
  mkBPK (path st) (bpk_is_owner st) file' model'.

(** *** Shared-memory handles *)

Definition buf_cb (ba : bytes) : M world (SharedMemory * (string * nat)) :=
  block <- SharedMemory_create (length ba) ;;
  blit block ba ;;;
  ret (block, (blk_name block, length ba)).

(** The calls of [buf_cb] that [pickle.dumps] makes, one per out-of-band
    buffer; the result is the lists [buffers] and [buf_keys]. *)
Fixpoint dump_buffers (bufs : list bytes)
  : M world (list SharedMemory * list (string * nat)) :=
  match bufs with
  | [] => ret ([], [])
  | ba :: rest =>
      bk <- buf_cb ba ;;
      r <- dump_buffers rest ;;
      ret (bk.1 :: r.1, bk.2 :: r.2)
  end.

Definition SHMPersisted_init (data : bytes) (buf_specs : list (string * nat))
    (bufs : list SharedMemory) : SHMPersisted Model :=
  mkSHM data buf_specs (Some bufs) true VNone.

Definition persist_shm (model : value Model) : M world (SHMPersisted Model) :=
  avail <- gets shm ;;
  if avail : bool then
    r <- sharing_mode
           (share <- gets in_share_context ;;
            bk <- dump_buffers (pickle_dumps share model).2 ;;
            ret ((pickle_dumps share model).1, bk)) ;;
    ret (SHMPersisted_init r.1 r.2.2 r.2.1)
  else raise (ImportError "multiprocessing.shared_memory").

(** The loop of [get]: the views and the blocks, in the order of the
    descriptors. *)
Fixpoint attach_all (specs : list (string * nat))
  : M world (list bytes * list SharedMemory) :=
  match specs with
  | [] => ret ([], [])
  | (bn, bs) :: rest =>
      vb <- SharedMemory_attach bn bs ;;
      r <- attach_all rest ;;
      ret (vb.1 :: r.1, vb.2 :: r.2)
  end.

Definition shm_get : M (SHMPersisted Model * world) (value Model) :=
  m <- gets (λ s, shm_model s.1) ;;
  (if is_None m then
     specs <- gets (λ s, buffer_specs s.1) ;;
     r <- in_world (attach_all specs) ;;
     update_self (λ h, mkSHM (pickle_data h) (buffer_specs h) (Some r.2)
                         (shm_is_owner h) (shm_model h)) ;;;
     data <- gets (λ s, pickle_data s.1) ;;
     match pickle_loads data r.1 with
     | Some v =>
         update_self (λ h, mkSHM (pickle_data h) (buffer_specs h) (buffers h)
                             (shm_is_owner h) v)
     | None => raise UnpicklingError
     end
   else ret tt) ;;;
  gets (λ s, shm_model s.1).

(** [del self.buffers] *)
Definition del_buffers : M (SHMPersisted Model * world) unit :=
  λ s, match buffers s.1 with
       | Some _ =>
           Ok tt (mkSHM (pickle_data s.1) (buffer_specs s.1) None
                    (shm_is_owner s.1) (shm_model s.1), s.2)
       | None => Raise (AttributeError "buffers") s
       end.

Definition shm_close (unlink_ : bool) : M (SHMPersisted Model * world) unit :=
  update_self (λ h, mkSHM (pickle_data h) (buffer_specs h) (buffers h)
                      (shm_is_owner h) VNone) ;;;
  owner <- gets (λ s, shm_is_owner s.1) ;;
  if owner : bool then
    bufs <- gets (λ s, default [] (buffers s.1)) ;;
    for_each bufs
      (λ buf, in_world (SharedMemory_close buf ;;; SharedMemory_unlink buf)) ;;;
    del_buffers ;;;
    update_self (λ h, mkSHM (pickle_data h) (buffer_specs h) (buffers h)
                        false (shm_model h))
  else ret tt.

(** [__getstate__] keeps three entries; unpickling builds an instance
    with exactly these attributes, so [buffers] and [_model] show the
    class attributes. *)
Definition shm_getstate (h : SHMPersisted Model)
  : bytes * list (string * nat) * bool :=
  (pickle_data h, buffer_specs h, false).

Definition shm_setstate (st : bytes * list (string * nat) * bool)
  : SHMPersisted Model :=
  mkSHM st.1.1 st.1.2 None st.2 VNone.

(** *** The dispatcher *)

Definition persist (model : value Model) : M world (PersistedModel Model) :=
  lk_tmp <- gets (λ w, environ w !! "LK_TEMP_DIR") ;;
  match lk_tmp with
  | Some d => h <- persist_binpickle model (Some d) ;; ret (FileBacked h)
  | None =>
      avail <- gets shm ;;
      if avail : bool then h <- persist_shm model ;; ret (SharedMem h)
      else h <- persist_binpickle model None ;; ret (FileBacked h)
  end.

(** A call of [persist] with positional arguments [args] and keyword
    arguments [kwargs]: the signature is [persist(model)], so exactly one
    argument binds, by position or by the name [model]. *)
Definition persist_call (args : list (value Model))
    (kwargs : list (string * value Model)) : M world (PersistedModel Model) :=
  match args, kwargs with
  | [model], [] => persist model
  | [], [(name, model)] =>
      if decide (name = "model") then persist model
      else raise (TypeError "persist")
  | _, _ => raise (TypeError "persist")
  end.

(** *** Sequences of calls on one handle *)

Inductive handle_op : Type :=
| OpGet
| OpClose (unlink_ : bool).

(** Calls made one after the other on a handle, each starting from the
    state the previous one left, whether it returned or raised. *)
Definition bpk_step (o : handle_op) (s : BPKPersisted Model * world)
  : BPKPersisted Model * world :=
  match o with
  | OpGet => final (bpk_get s)
  | OpClose u => final (bpk_close u s)
  end.

Definition shm_step (o : handle_op) (s : SHMPersisted Model * world)
  : SHMPersisted Model * world :=
  match o with
  | OpGet => final (shm_get s)
  | OpClose u => final (shm_close u s)
  end.

Definition bpk_run (ops : list handle_op) (s : BPKPersisted Model * world)
  : BPKPersisted Model * world :=
  foldl (λ s o, bpk_step o s) s ops.

Definition shm_run (ops : list handle_op) (s : SHMPersisted Model * world)
  : SHMPersisted Model * world :=
  foldl (λ s o, shm_step o s) s ops.

End Handles.

(** The strategy the specification describes for a configured directory
    override [env_dir] (environment) or [arg_dir] (argument). *)
Inductive strategy : Type :=
| UseFile (dir : option string)
| UseSharedMemory.

Definition spec_strategy (env_dir arg_dir : option string) (shm_ok : bool)
  : strategy :=
  match env_dir, arg_dir with
  | Some d, _ => UseFile (Some d)
  | None, Some d => UseFile (Some d)
  | None, None => if shm_ok then UseSharedMemory else UseFile None
  end.

(** A returned handle follows a strategy: a file-backed handle whose path
    lies in the chosen directory ([tmp] when none is chosen), or a
    shared-memory handle. *)
Definition follows {Model} (tmp : string) (s : strategy)
    (p : PersistedModel Model) : Prop :=
  match s, p with
  | UseFile d, FileBacked h => in_dir (default tmp d) (path h)
  | UseSharedMemory, SharedMem _ => True
  | _, _ => False
  end.

(** *** A small library instance

    Models are byte strings.  binpickle writes a tag byte and the bytes;
    pickle writes a tag byte and hands the bytes over as one out-of-band
    buffer.  Blocks come in sizes of at least 16 bytes. *)

Definition toy_binpickle_dump (share : bool) (v : value bytes) : bytes :=
  match v with
  | VNone => [x00]
  | VObj m => x01 :: m
  end.

Definition toy_binpickle_load (data : bytes) : option (value bytes) :=
  match data with
  | [x00] => Some VNone
  | x01 :: m => Some (VObj m)
  | _ => None
  end.

Definition toy_pickle_dumps (share : bool) (v : value bytes)
  : bytes * list bytes :=
  match v with
  | VNone => ([x00], [])
  | VObj m => ([x01], [m])
  end.

Definition toy_pickle_loads (data : bytes) (bufs : list bytes)
  : option (value bytes) :=
  match data, bufs with
  | [x00], [] => Some VNone
  | [x01], [m] => Some (VObj m)
  | _, _ => None
  end.

#[local] Instance toy_library : Library bytes := {|
  binpickle_dump := toy_binpickle_dump;
  binpickle_load := toy_binpickle_load;
  pickle_dumps := toy_pickle_dumps;
  pickle_loads := toy_pickle_loads;
  gettempdir := "/tmp";
  mkstemp_token := λ _, "k3x9q0ab";
  shm_block_size := Nat.max 16;
  shm_block_size_ge := Nat.le_max_r 16
|}.

(** A world with nothing in it; shared memory is available. *)
Definition world0 : world := mkWorld ∅ true ∅ ∅ ∅ None [].

(** Handles of the kind the two strategies return, with the worlds that
    hold their resources: a temporary file, and two segments. *)
Definition demo_path : string := "/tmp/lkpy-k3x9q0ab.bpk".

Definition demo_bpk : BPKPersisted bytes := BPKPersisted_init demo_path.

Definition demo_bpk_world : world :=
  set_files {[demo_path := [x01; x6c; x6b]]} world0.

Definition demo_shm : SHMPersisted bytes :=
  SHMPersisted_init [x01]
    [("psm_a", 2); ("psm_b", 3)]
    [mkSharedMemory "psm_a" 16; mkSharedMemory "psm_b" 16].

Definition demo_shm_world : world :=
  set_segments {["psm_a" := [x6c; x6b] ++ replicate 14 x00;
                 "psm_b" := [x70; x79; x21] ++ replicate 13 x00]} world0.

(** A shared-memory handle for a model with one buffer, as [persist_shm]
    builds it in an empty name space. *)
Definition demo_shm_one : SHMPersisted bytes :=
  SHMPersisted_init [x01] [("psm_", 2)] [mkSharedMemory "psm_" 16].

Definition demo_shm_one_world : world :=
  set_segments {["psm_" := [x6c; x6b] ++ replicate 14 x00]} world0.

(** The file-backed handle after [get]: the file is mapped.  In
    [demo_failing_world] closing that mapping fails with an I/O error. *)
Definition demo_open_file : BinPickleFile :=
  mkBinPickleFile demo_path [x01; x6c; x6b].

Definition demo_bpk_open : BPKPersisted bytes :=
  mkBPK demo_path true (Some demo_open_file) (VObj [x6c; x6b]).

Definition demo_failing_world : world :=
  mkWorld ∅ true {[demo_path := [x01; x6c; x6b]]} ∅
    {[demo_path := OSError "Input/output error"]} None [].

End Persist.

(** ** Top-N analysis: key columns, grouping and the measurement loop

    A shallow embedding of [lenskit/topn.py].  A pandas data frame is a
    row count, an optional index column and named columns of cell values;
    cell values compare with a decidable equality (no NaN).  What pandas
    does with a frame is written out for the operations the module uses;
    the order in which [groupby] presents its keys is a parameter. *)

Module TopN.

Section Frames.

(** [V]: cell values.  [R]: metric results, with [float] turning a length
    into one.  [K]: keyword arguments of a metric, [no_kwargs] the empty
    dictionary.  [sort_keys]: the order of the group keys in [groupby]. *)
Context {V R K : Type} `{EqDecision V}.
Variable float : nat → R.
Variable no_kwargs : K.
Variable sort_keys : list V → list V.

Inductive failure : Type :=
| IndexError
| AssertionError
| KeyError (label : string)
| GroupKeyError (key : list V)
| MetricError (name : string).

(** A result or the exception raised. *)
Inductive res (A : Type) : Type :=
| Done (a : A)
| Fail (e : failure).
Arguments Done {A} a.
Arguments Fail {A} e.

Definition rbind {A B} (c : res A) (k : A → res B) : res B :=
  match c with
  | Done a => k a
  | Fail e => Fail e
  end.

Notation "x <~ c ;; k" := (rbind c (λ x, k))
  (at level 100, c at next level, right associativity).

(** A loop or comprehension that collects one result per element and
    stops at the first exception. *)
Fixpoint rmap {A B} (f : A → res B) (l : list A) : res (list B) :=
  match l with
  | [] => Done []
  | x :: l' => y <~ f x ;; ys <~ rmap f l' ;; Done (y :: ys)
  end.

Record frame : Type := mkFrame {
  nrows : nat;
  index : option (string * list V);
  columns : list (string * list V)
}.

(** [df.columns] *)
Definition col_names (df : frame) : list string := fst <$> columns df.

(** Every column, and the index, has one cell per row, and no two
    columns share a name. *)
Definition well_formed (df : frame) : Prop :=
  Forall (λ c, length c.2 = nrows df) (columns df)
  ∧ NoDup (col_names df)
  ∧ match index df with
    | Some ix => length ix.2 = nrows df
    | None => True
    end.

Fixpoint lookup_col (c : string) (cols : list (string * list V))
  : option (list V) :=
  match cols with
  | [] => None
  | (n, vs) :: cols' => if decide (n = c) then Some vs else lookup_col c cols'
  end.

(** [df[c]] *)
Definition getitem (df : frame) (c : string) : res (list V) :=
  match lookup_col c (columns df) with
  | Some vs => Done vs
  | None => Fail (KeyError c)
  end.

(** Values in order of first appearance: [Series.unique()]. *)
Fixpoint unique (l : list V) : list V :=
  match l with
  | [] => []
  | x :: l' => x :: filter (λ y, y ≠ x) (unique l')
  end.

(** [Series.nunique()] *)
Definition nunique (l : list V) : nat := length (unique l).

(** [c_col == v] *)
Definition eq_mask (c_col : list V) (v : V) : list bool :=
  (λ x, bool_decide (x = v)) <$> c_col.

Fixpoint filter_mask {A} (mask : list bool) (l : list A) : list A :=
  match mask, l with
  | b :: mask', x :: l' =>
      if b then x :: filter_mask mask' l' else filter_mask mask' l'
  | _, _ => []
  end.

Definition count_true (mask : list bool) : nat :=
  length (filter (λ b, b = true) mask).

(** [df[mask]]: the rows where the mask holds, in their order. *)
Definition select (mask : list bool) (df : frame) : frame :=
  mkFrame (count_true mask)
    ((λ ix, (ix.1, filter_mask mask ix.2)) <$> index df)
    ((λ c, (c.1, filter_mask mask c.2)) <$> columns df).

(** [df.groupby(c)], iterated: one pair per distinct value of the column,
    in the order [sort_keys] gives, with the rows holding that value. *)
Definition groupby (df : frame) (c : string) : res (list (V * frame)) :=
  c_col <~ getitem df c ;;
  Done ((λ k, (k, select (eq_mask c_col k) df)) <$> sort_keys (unique c_col)).

(** [df.drop(columns=[c])] *)
Definition drop_column (df : frame) (c : string) : res frame :=
  if bool_decide (c ∈ col_names df) then
    Done (mkFrame (nrows df) (index df)
            (filter (λ p, p.1 ≠ c) (columns df)))
  else Fail (KeyError c).

(** Every column has one cell per row. *)
Definition rectangular (df : frame) : Prop :=
  Forall (λ c, length c.2 = nrows df) (columns df).

(** The frame [drop] returns. *)
Definition dropped (df : frame) (c : string) : frame :=
  mkFrame (nrows df) (index df) (filter (λ p, p.1 ≠ c) (columns df)).

(** [df.set_index(c)] *)
Definition set_index (df : frame) (c : string) : res frame :=
  col <~ getitem df c ;;
  Done (mkFrame (nrows df) (Some (c, col))
          (filter (λ p, p.1 ≠ c) (columns df))).

(** The groups [_grouping_iter] yields, in order: the key built so far
    extended by one value per column, and the rows of the group without
    the key columns. *)
Fixpoint _grouping_iter (df : frame) (cols : list string) (ksf : list V)
  : res (list (list V * frame)) :=
  match cols with
  | [] => Fail IndexError
  | current :: remaining =>
      match remaining with
      | [] =>
          gs <~ groupby df current ;;
          rmap (λ g, d <~ drop_column g.2 current ;; Done (ksf ++ [g.1], d)) gs
      | _ :: _ =>
          gs <~ groupby df current ;;
          parts <~ rmap (λ g, d <~ drop_column g.2 current ;;
                              _grouping_iter d remaining (ksf ++ [g.1])) gs ;;
          Done (concat parts)
      end
  end.

Fixpoint _grouping_count (df : frame) (cols : list string) : res nat :=
  match cols with
  | [] => Fail IndexError
  | current :: remaining =>
      match remaining with
      | [] => c_col <~ getitem df current ;; Done (nunique c_col)
      | _ :: _ =>
          c_col <~ getitem df current ;;
          counts <~ rmap (λ v, subdf <~ drop_column (select (eq_mask c_col v) df)
                                          current ;;
                               _grouping_count subdf remaining)
                      (unique c_col) ;;
          Done (foldl Nat.add 0 counts)
      end
  end.

(** A metric function: its [__name__] and what a call does. *)
Record metric_fn : Type := mkMetric {
  __name__ : string;
  call : K → frame → frame → res R
}.

Definition _length : metric_fn :=
  mkMetric "_length" (λ _ df _, Done (float (nrows df))).

(** [progress] records whether a progress-bar factory was given. *)
Record RecListAnalysis : Type := mkRLA {
  group_cols : option (list string);
  metrics : list (metric_fn * string * K);
  progress : bool
}.

Definition DEFAULT_SKIP_COLS : list string := ["item"; "rank"; "score"; "rating"].

Definition __init__ (group_cols : option (list string)) (progress : bool)
  : RecListAnalysis :=
  mkRLA group_cols [(_length, "nrecs", no_kwargs)] progress.

Definition add_metric (self : RecListAnalysis) (metric : metric_fn)
    (name : option string) (kwargs : K) : RecListAnalysis :=
  mkRLA (group_cols self)
    (metrics self ++ [(metric, default (__name__ metric) name, kwargs)])
    (progress self).

(** The pair [(rec_key, truth_key)]. *)
Definition _df_keys (self : RecListAnalysis) (r_cols t_cols : list string)
  : list string * list string :=
  let gcols := match group_cols self with
               | Some g => g
               | None => filter (λ c, c ∉ DEFAULT_SKIP_COLS) r_cols
               end in
  let truth_key := filter (λ c, c ∈ t_cols) gcols in
  let rec_key := filter (λ c, c ∉ t_cols) gcols ++ truth_key in
  (rec_key, truth_key).

(** The columns grouped by: the analysis' own, or all columns of the
    recommendations but the four skipped by default. *)
Definition group_columns (self : RecListAnalysis) (r_cols : list string)
  : list string :=
  match group_cols self with
  | Some g => g
  | None => filter (λ c, c ∉ DEFAULT_SKIP_COLS) r_cols
  end.

(** What a progress bar has seen once iteration is over. *)
Record progress_bar : Type := mkProgress {
  total : nat;
  updates : nat;
  closed : bool
}.

(** [_iter_grouped], run to its end: the groups, and the progress bar if
    there is one. *)
Definition _iter_grouped (self : RecListAnalysis) (df : frame)
    (key : list string) : res (list (list V * frame) * option progress_bar) :=
  if progress self then
    n <~ _grouping_count df key ;;
    gs <~ _grouping_iter df key [] ;;
    Done (gs, Some (mkProgress n (length gs) true))
  else
    gs <~ _grouping_iter df key [] ;;
    Done (gs, None).

(** [l[-n:]] for a length [n]: the last [n] elements, and with [n = 0]
    the whole of [l], since [-0] is [0]. *)
Definition neg_slice {A} (n : nat) (l : list A) : list A :=
  match n with
  | O => l
  | S _ => drop (length l - n) l
  end.

(** [d[k]] in a dictionary built from a list of pairs: the last pair
    with the key counts. *)
Definition dict_get {A} (k : list V) (d : list (list V * A)) : option A :=
  snd <$> last (filter (λ p, p.1 = k) d).

(** The frame [compute] returns without [include_missing]: the index
    columns, the metric columns, and one row per measured list. *)
Record results : Type := mkResults {
  index_names : list string;
  value_names : list string;
  rows : list (list V * list R)
}.

Definition compute (self : RecListAnalysis) (recs truth : frame) : res results :=
  let keys := _df_keys self (col_names recs) (col_names truth) in
  let rec_key := keys.1 in
  let truth_key := keys.2 in
  tg <~ _iter_grouped self truth truth_key ;;
  truth_frames <~ rmap (λ g, d <~ set_index g.2 "item" ;; Done (g.1, d)) tg.1 ;;
  let mnames := (λ m, m.1.2) <$> metrics self in
  let nt := length truth_key in
  if bool_decide (neg_slice nt rec_key = truth_key) then
    rg <~ _iter_grouped self recs rec_key ;;
    rws <~ rmap (λ g,
                   let tk := neg_slice nt g.1 in
                   match dict_get tk truth_frames with
                   | None => Fail (GroupKeyError tk)
                   | Some g_truth =>
                       vals <~ rmap (λ m, call m.1.1 m.2 g.2 g_truth)
                                 (metrics self) ;;
                       Done (g.1, vals)
                   end) rg.1 ;;
    Done (mkResults rec_key mnames rws)
  else Fail AssertionError.

End Frames.

Arguments IndexError {V}.
Arguments AssertionError {V}.
Arguments KeyError {V} label.
Arguments GroupKeyError {V} key.
Arguments MetricError {V} name.
Arguments Done {V A} a.
Arguments Fail {V A} e.

(** *** A small example

    Cells are numbers; metric results are numbers too, so that [float] is
    the identity; metrics take no keyword arguments; [groupby] presents
    its keys in increasing order.  Two users with two recommendations
    each, and the items they are known to like. *)
Definition nat_sort : list nat → list nat := merge_sort le.

Definition demo_recs : frame (V:=nat) :=
  mkFrame 4 None
    [("user", [1; 1; 2; 2]); ("item", [10; 11; 10; 12]); ("score", [5; 4; 5; 3])].

Definition demo_truth : frame (V:=nat) :=
  mkFrame 3 None [("user", [1; 2; 2]); ("item", [10; 10; 12])].

(** A truth frame without the [user] column. *)
Definition demo_truth_items : frame (V:=nat) :=
  mkFrame 3 None [("item", [10; 10; 12]); ("rating", [4; 5; 3])].

Definition demo_analysis (progress : bool)
  : RecListAnalysis (V:=nat) (R:=nat) (K:=unit) :=
  __init__ id tt None progress.

End TopN.

(** * Properties *)

(** ** Stores *)

Module StoreFacts.

Import Store.

Lemma act_count_set self c st :
  _act_count self (set_act_count self c st) = c.
Proof. unfold _act_count, set_act_count; simpl. by rewrite lookup_insert_eq. Qed.

(** What [__enter__] does, in one equation. *)
Lemma store_enter_eq self st :
  __enter__ self st =
  Ok self (mkState (<[self := (_act_count self st + 1)%Z]> (act_count st))
             (active st ++ [self]) (files st)
             (calls st ++ if decide (_act_count self st = 0%Z)
                          then [EInit self] else [])).
Proof.
  unfold __enter__, bind, gets, modify, ret, _active_stores, init.
  destruct (decide (_act_count self st = 0%Z)) as [Hc|Hc]; simpl.
  - unfold set_act_count, set_active, record_call, _act_count; simpl. done.
  - unfold set_act_count, set_active; simpl. by rewrite app_nil_r; destruct st.
Qed.

Lemma store_exit_eq self st :
  __exit__ self st =
  match last (active st) with
  | None => Raise IndexError (before_assert self st)
  | Some top =>
      if decide (top = self)
      then Ok tt (set_active (removelast (active st)) (before_assert self st))
      else Raise AssertionError (before_assert self st)
  end.
Proof.
  unfold __exit__, bind, gets, modify, ret, raise, _active_stores, shutdown.
  simpl. rewrite act_count_set. unfold before_assert.
  destruct (decide ((_act_count self st - 1)%Z = 0%Z)) as [Hc|Hc]; simpl.
  - destruct (last (active st)) as [top|]; [|done].
    destruct (decide (top = self)); done.
  - rewrite app_nil_r.
    destruct (last (active st)) as [top|]; [|done].
    destruct (decide (top = self)); done.
Qed.

Lemma transition_enter self (d : nat) :
  transition_calls self (Z.of_nat d) (Z.of_nat d + 1)%Z =
  if decide (Z.of_nat d = 0%Z) then [EInit self] else [].
Proof.
  unfold transition_calls.
  destruct (decide (Z.of_nat d = 0%Z)) as [H0|H0].
  - rewrite decide_True; [done|lia].
  - rewrite decide_False; [|tauto]. rewrite decide_False; [done|lia].
Qed.

Lemma transition_exit self (d : nat) :
  transition_calls self (Z.of_nat (S d)) (Z.of_nat (S d) - 1)%Z =
  if decide ((Z.of_nat (S d) - 1)%Z = 0%Z) then [EShutdown self] else [].
Proof.
  unfold transition_calls.
  rewrite decide_False; [|lia].
  destruct (decide ((Z.of_nat (S d) - 1)%Z = 0%Z)) as [H0|H0].
  - rewrite decide_True; [done|lia].
  - rewrite decide_False; [done|tauto].
Qed.

(** The invariant of a nested run: at depth [d] the count is [d] and the
    store sits [d] times on top of the activation stack. *)
Lemma run_nested self ops : ∀ (d : nat) st stk,
  _act_count self st = Z.of_nat d →
  active st = stk ++ replicate d self →
  nested d ops = true →
  ∃ st', run self ops st = Ok tt st'
         ∧ calls st' = calls st ++ expected_calls self (Z.of_nat d) ops
         ∧ _act_count self st' = foldl next_count (Z.of_nat d) ops.
Proof.
  induction ops as [|o ops IH]; intros d st stk Hc Hs Hn.
  - exists st. by rewrite app_nil_r.
  - destruct o; simpl in Hn.
    + unfold run; simpl. unfold bind at 1. unfold step, bind at 1.
      rewrite store_enter_eq. unfold ret at 1.
      set (st1 := mkState _ _ _ _).
      destruct (IH (S d) st1 stk) as (st' & Hrun & Hcalls & Hcnt).
      * unfold st1, _act_count; simpl. rewrite lookup_insert_eq; simpl.
        fold (_act_count self st). lia.
      * unfold st1; simpl. rewrite Hs, <- app_assoc.
        f_equal. symmetry. apply replicate_S_end.
      * done.
      * exists st'. split; [exact Hrun|]. split.
        -- rewrite Hcalls. unfold st1; simpl. rewrite Hc, <- app_assoc.
           rewrite transition_enter.
           replace (Z.of_nat (S d)) with (Z.of_nat d + 1)%Z by lia. done.
        -- rewrite Hcnt. simpl.
           replace (Z.of_nat (S d)) with (Z.of_nat d + 1)%Z by lia. done.
    + destruct d as [|d]; [done|].
      unfold run; simpl. unfold bind at 1. unfold step.
      rewrite store_exit_eq, Hs.
      rewrite replicate_S_end, app_assoc, last_snoc.
      rewrite decide_True by done.
      rewrite removelast_last.
      set (st1 := set_active _ _).
      destruct (IH d st1 stk) as (st' & Hrun & Hcalls & Hcnt).
      * unfold st1, set_active, before_assert, _act_count; simpl.
        rewrite lookup_insert_eq; simpl. fold (_act_count self st). lia.
      * done.
      * done.
      * exists st'. split; [exact Hrun|]. split.
        -- rewrite Hcalls. unfold st1, set_active, before_assert; simpl.
           rewrite Hc, <- app_assoc, transition_exit.
           replace (Z.of_nat (S d) - 1)%Z with (Z.of_nat d) by lia. done.
        -- rewrite Hcnt. simpl.
           replace (Z.of_nat (S d) - 1)%Z with (Z.of_nat d) by lia. done.
Qed.

(** C5.  A store whose activation count is zero goes through any nested
    sequence of enters and exits without raising, and the hook calls it
    makes are exactly those of the count's transitions: one [init] for
    each move from zero to nonzero, one [shutdown] for each move from
    nonzero to zero, and none for the re-entrant enters and exits in
    between.  The count itself moves up by one on enter and down by one
    on exit. *)
Theorem hooks_once_per_transition self ops st :
  nested 0 ops = true →
  _act_count self st = 0%Z →
  ∃ st', run self ops st = Ok tt st'
         ∧ calls st' = calls st ++ expected_calls self 0 ops
         ∧ _act_count self st' = foldl next_count 0%Z ops.
Proof.
  intros Hn Hc.
  apply (run_nested self ops 0 st (active st)); [done| |done].
  simpl. by rewrite app_nil_r.
Qed.

Lemma hooks_once_per_transition_witness :
  ∃ st', run 1 [Enter; Enter; Exit; Enter; Exit; Exit; Enter; Exit] state0
           = Ok tt st'
         ∧ calls st' = calls state0 ++
             expected_calls 1 0 [Enter; Enter; Exit; Enter; Exit; Exit; Enter; Exit]
         ∧ _act_count 1 st' =
             foldl next_count 0%Z [Enter; Enter; Exit; Enter; Exit; Exit; Enter; Exit].
Proof.
  apply (hooks_once_per_transition 1
           [Enter; Enter; Exit; Enter; Exit; Exit; Enter; Exit] state0);
    reflexivity.
Defined.

(** On the sequence of the witness the hooks run as [init], [shutdown],
    [init], [shutdown]. *)
Example expected_calls_example :
  expected_calls 1 0 [Enter; Enter; Exit; Enter; Exit; Exit; Enter; Exit]
  = [EInit 1; EShutdown 1; EInit 1; EShutdown 1].
Proof. reflexivity. Qed.

(** C6.  When the store is not on top of the activation stack (another
    store is, or the stack is empty), [__exit__] raises, and the stack is
    left as it was: no other store is popped. *)
Theorem exit_out_of_order_raises self st :
  last (active st) ≠ Some self →
  (raised (__exit__ self st) = Some AssertionError
   ∨ raised (__exit__ self st) = Some IndexError)
  ∧ active (final (__exit__ self st)) = active st.
Proof.
  intros Htop. rewrite store_exit_eq.
  destruct (last (active st)) as [top|] eqn:Hl.
  - destruct (decide (top = self)) as [->|Hne]; [done|].
    split; [by left|done].
  - split; [by right|done].
Qed.

Lemma exit_out_of_order_raises_witness :
  (raised (__exit__ 1 (mkState {[1 := 1%Z; 2 := 1%Z]} [1; 2] ∅ [EInit 1; EInit 2]))
     = Some AssertionError
   ∨ raised (__exit__ 1 (mkState {[1 := 1%Z; 2 := 1%Z]} [1; 2] ∅ [EInit 1; EInit 2]))
     = Some IndexError)
  ∧ active (final (__exit__ 1 (mkState {[1 := 1%Z; 2 := 1%Z]} [1; 2] ∅ [EInit 1; EInit 2])))
    = [1; 2].
Proof.
  apply (exit_out_of_order_raises 1
           (mkState {[1 := 1%Z; 2 := 1%Z]} [1; 2] ∅ [EInit 1; EInit 2])).
  simpl. discriminate.
Defined.

(** The pickle branch of [put_serialized]: the file is read, unpickled,
    and the model handed to [put_model], whose key is returned. *)
Lemma put_serialized_pickle {Model Key} put_model pickle_load binpickle_load
    self path st data (model : Model) :
  files st !! path = Some data →
  pickle_load data = Some model →
  put_serialized Model Key put_model pickle_load binpickle_load self path false st
  = bind (put_model self model) (λ key, ret (Some key)) st.
Proof.
  intros Hf Hp. unfold put_serialized, bind at 1, open_rb. by rewrite Hf, Hp.
Qed.

(** C9 (as the code has it).  With [binpickle=True], [put_serialized]
    raises [NameError] for the unbound global [bpk] before anything is
    loaded: [put_model] is not called and the state is unchanged. *)
Theorem put_serialized_binpickle_raises {Model Key}
    (put_model : store_id → Model → M state Key) pickle_load binpickle_load
    self path st :
  put_serialized Model Key put_model pickle_load binpickle_load self path true st
  = Raise (NameError "bpk") st.
Proof. reflexivity. Qed.

(** ** Further properties of stores *)

(** A nested run, with the stack and the other stores in view. *)
Lemma run_nested_stack self ops : ∀ (d : nat) st stk,
  _act_count self st = Z.of_nat d →
  active st = stk ++ replicate d self →
  nested d ops = true →
  ∃ st' (d' : nat),
    run self ops st = Ok tt st'
    ∧ active st' = stk ++ replicate d' self
    ∧ _act_count self st' = Z.of_nat d'
    ∧ files st' = files st
    ∧ ∀ s, s ≠ self → _act_count s st' = _act_count s st.
Proof.
  induction ops as [|o ops IH]; intros d st stk Hc Hs Hn.
  - by exists st, d.
  - destruct o; simpl in Hn.
    + unfold run; simpl. unfold bind at 1. unfold step, bind at 1.
      rewrite store_enter_eq. unfold ret at 1.
      set (st1 := mkState _ _ _ _).
      destruct (IH (S d) st1 stk) as (st' & d' & Hrun & Hst & Hcnt & Hf & Hoth).
      * unfold st1, _act_count; simpl. rewrite lookup_insert_eq; simpl.
        fold (_act_count self st). lia.
      * unfold st1; simpl. rewrite Hs, <- app_assoc.
        f_equal. symmetry. apply replicate_S_end.
      * done.
      * exists st', d'. split; [exact Hrun|]. split; [done|]. split; [done|].
        split; [done|]. intros s Hne. rewrite (Hoth s Hne).
        unfold st1, _act_count; simpl. by rewrite lookup_insert_ne.
    + destruct d as [|d]; [done|].
      unfold run; simpl. unfold bind at 1. unfold step.
      rewrite store_exit_eq, Hs.
      rewrite replicate_S_end, app_assoc, last_snoc.
      rewrite decide_True by done.
      rewrite removelast_last.
      set (st1 := set_active _ _).
      destruct (IH d st1 stk) as (st' & d' & Hrun & Hst & Hcnt & Hf & Hoth).
      * unfold st1, set_active, before_assert, _act_count; simpl.
        rewrite lookup_insert_eq; simpl. fold (_act_count self st). lia.
      * done.
      * done.
      * exists st', d'. split; [exact Hrun|]. split; [done|]. split; [done|].
        split; [done|]. intros s Hne. rewrite (Hoth s Hne).
        unfold st1, set_active, before_assert, _act_count; simpl.
        by rewrite lookup_insert_ne.
Qed.

(** X15.  A nested run on a store that starts inactive leaves the
    activation stack as it found it, with the store on top once for each
    activation still open, and leaves the counts of all other stores
    alone.  When every enter has been matched by an exit, the stack is
    exactly what it was. *)
Theorem nested_run_stack self ops st :
  nested 0 ops = true →
  _act_count self st = 0%Z →
  ∃ st' (d : nat),
    run self ops st = Ok tt st'
    ∧ _act_count self st' = Z.of_nat d
    ∧ active st' = active st ++ replicate d self
    ∧ (d = 0 → active st' = active st)
    ∧ ∀ s, s ≠ self → _act_count s st' = _act_count s st.
Proof.
  intros Hn Hc.
  destruct (run_nested_stack self ops 0 st (active st))
    as (st' & d & Hrun & Hst & Hcnt & _ & Hoth); [done| |done|].
  { simpl. by rewrite app_nil_r. }
  exists st', d. split; [done|]. split; [done|]. split; [done|].
  split; [|done]. intros ->. rewrite Hst. simpl. by rewrite app_nil_r.
Qed.

Lemma nested_run_stack_witness :
  ∃ st' (d : nat),
    run 2 [Enter; Enter; Exit] (mkState {[1 := 1%Z]} [1] ∅ [EInit 1]) = Ok tt st'
    ∧ _act_count 2 st' = Z.of_nat d
    ∧ active st' = [1] ++ replicate d 2
    ∧ (d = 0 → active st' = [1])
    ∧ ∀ s, s ≠ 2 → _act_count s st' = _act_count s (mkState {[1 := 1%Z]} [1] ∅ [EInit 1]).
Proof.
  apply (nested_run_stack 2 [Enter; Enter; Exit]
           (mkState {[1 := 1%Z]} [1] ∅ [EInit 1])); reflexivity.
Defined.

(** X16.  An [__exit__] that raises has already done its bookkeeping:
    the count is one lower, and [shutdown] has run if that made it
    zero. *)
Theorem failed_exit_side_effects self st :
  last (active st) ≠ Some self →
  _act_count self (final (__exit__ self st)) = (_act_count self st - 1)%Z
  ∧ calls (final (__exit__ self st)) =
      calls st ++ if decide (_act_count self st = 1%Z) then [EShutdown self] else [].
Proof.
  intros Htop. rewrite store_exit_eq.
  assert (∀ st1, st1 = before_assert self st →
            _act_count self st1 = (_act_count self st - 1)%Z
            ∧ calls st1 = calls st ++
                if decide (_act_count self st = 1%Z) then [EShutdown self] else [])
    as Hb.
  { intros st1 ->. unfold before_assert; split.
    - unfold _act_count at 1; simpl. by rewrite lookup_insert_eq.
    - simpl. f_equal.
      destruct (decide (_act_count self st = 1%Z)) as [H1|H1].
      + rewrite decide_True; [done|lia].
      + rewrite decide_False; [done|lia]. }
  destruct (last (active st)) as [top|] eqn:Hl; simpl.
  - destruct (decide (top = self)) as [->|Hne]; [done|]. by apply Hb.
  - by apply Hb.
Qed.

Lemma failed_exit_side_effects_witness :
  _act_count 1 (final (__exit__ 1 two_stores)) = 0%Z
  ∧ calls (final (__exit__ 1 two_stores)) = [EShutdown 1].
Proof.
  apply (failed_exit_side_effects 1 two_stores).
  simpl. discriminate.
Defined.

(** X17.  Inside [with store:], [get_store()] with [reuse] returns that
    very store, whatever the other arguments and whatever was active
    before; and once the block is left, the activation stack and the
    store's count are what they were before it was entered. *)
Theorem get_store_reuses_entered shm_enabled in_process self st :
  ∃ st1 st2,
    __enter__ self st = Ok self st1
    ∧ get_store shm_enabled true in_process st1 = Ok (Existing self) st1
    ∧ __exit__ self st1 = Ok tt st2
    ∧ active st2 = active st
    ∧ _act_count self st2 = _act_count self st.
Proof.
  eexists _, _. split; [apply store_enter_eq|]. split.
  - unfold get_store, bind, _active_stores, gets; simpl.
    rewrite last_snoc. rewrite bool_decide_true; [done|].
    by destruct (active st).
  - rewrite store_exit_eq. simpl. rewrite last_snoc, decide_True by done.
    split; [reflexivity|]. simpl. rewrite removelast_last. split; [done|].
    repeat (unfold _act_count; simpl; rewrite ?lookup_insert_eq; simpl). lia.
Qed.

End StoreFacts.

(** ** The shared-object wrapper *)

Module WrapperFacts.

Import Wrapper.

(** [release] on a wrapper that still holds an object other than [None]. *)
Lemma release_eq st l :
  object (self st) = Some (VObj l) →
  release st =
  let rc := getrefcount (VObj l) (hp st) in
  let leak := rc_truthy (_rc (self st)) && rc_exceeds rc (_rc (self st)) in
  Ok tt (mkState (mkSharedObject None (_rc (self st)) (_exiting (self st)))
           (decref (VObj l) (hp st))
           (warnings st ++ if leak then [leak_warning (self st) (VObj l)] else [])
           (debug_log st ++ if leak then [(VObj l, default 0 (_rc (self st)), rc)]
                            else [])).
Proof.
  intros Ho. unfold release, bind at 1, get_object. rewrite Ho.
  rewrite decide_False by done.
  unfold bind, gets, get_object, del_object, log_debug, warn, modify, ret.
  rewrite Ho; simpl.
  destruct (rc_truthy (_rc (self st)) && rc_exceeds _ (_rc (self st))); simpl.
  - by rewrite Ho.
  - rewrite Ho. by rewrite !app_nil_r.
Qed.

(** [release] on a wrapper around [None] does nothing at all. *)
Lemma release_None st :
  object (self st) = Some VNone → release st = Ok tt st.
Proof.
  intros Ho. unfold release, bind, get_object. by rewrite Ho.
Qed.

Lemma release_deleted st :
  object (self st) = None → release st = Raise (AttributeError "object") st.
Proof.
  intros Ho. unfold release, bind, get_object. by rewrite Ho.
Qed.

Lemma wrapper_enter_eq st o :
  object (self st) = Some o →
  __enter__ st =
  Ok o (set_self (mkSharedObject (Some o) (Some (getrefcount o (hp st)))
                    (_exiting (self st))) st).
Proof.
  intros Ho. unfold __enter__, bind, gets, get_object, modify. rewrite Ho.
  simpl. by rewrite Ho.
Qed.

(** C8, amended.  Take a wrapper around an object other than [None].
    [__enter__] returns the object and records its reference count.  When
    [release] runs later, on whatever the heap, the warnings and the log
    have become by then, it returns normally, the wrapper's [object]
    attribute is gone and its reference dropped, and one leak warning has
    been added if the count now exceeds the recorded one, none
    otherwise. *)
Theorem release_warns_iff_count_rose st l :
  object (self st) = Some (VObj l) →
  ∃ w1, __enter__ st = Ok (VObj l) (set_self w1 st)
    ∧ _rc w1 = Some (getrefcount (VObj l) (hp st))
    ∧ ∀ h ws dl,
        let st1 := mkState w1 h ws dl in
        raised (release st1) = None
        ∧ warnings (final (release st1)) =
            ws ++ (if bool_decide (getrefcount (VObj l) (hp st)
                                   < getrefcount (VObj l) h)
                   then [leak_warning w1 (VObj l)] else [])
        ∧ object (self (final (release st1))) = None
        ∧ hp (final (release st1)) = decref (VObj l) h.
Proof.
  intros Ho. eexists. split; [by apply wrapper_enter_eq|]. split; [done|].
  intros h ws dl st1.
  rewrite (release_eq st1 l) by done. simpl. done.
Qed.

Lemma release_warns_iff_count_rose_witness :
  ∃ w1, __enter__ (mkState (__init__ (VObj 7)) heap1 [] [])
        = Ok (VObj 7) (set_self w1 (mkState (__init__ (VObj 7)) heap1 [] []))
    ∧ _rc w1 = Some (getrefcount (VObj 7) heap1)
    ∧ ∀ h ws dl,
        let st1 := mkState w1 h ws dl in
        raised (release st1) = None
        ∧ warnings (final (release st1)) =
            ws ++ (if bool_decide (getrefcount (VObj 7) heap1
                                   < getrefcount (VObj 7) h)
                   then [leak_warning w1 (VObj 7)] else [])
        ∧ object (self (final (release st1))) = None
        ∧ hp (final (release st1)) = decref (VObj 7) h.
Proof.
  apply (release_warns_iff_count_rose
           (mkState (__init__ (VObj 7)) heap1 [] []) 7).
  reflexivity.
Defined.

(** The two cases of the scenario on a concrete heap: a second reference
    retained, and none. *)
Example release_leak_example :
  let w1 := self (final (__enter__ (mkState (__init__ (VObj 7)) heap1 [] []))) in
  warnings (final (release (mkState w1 heap2 [] []))) = [mkWarning (VObj 7) 2]
  ∧ warnings (final (release (mkState w1 heap1 [] []))) = [].
Proof. vm_compute. done. Qed.

(** C8 as stated fails for a wrapper around [None]: the reference count
    of [None] has risen from 41 to 46 between [__enter__] and [release],
    yet [release] issues no warning, and the wrapper still holds its
    reference afterwards. *)
Lemma release_None_counterexample :
  let w1 := self (final (__enter__ (mkState (__init__ VNone) heap1 [] []))) in
  let st1 := mkState w1 (mkHeap 45 ∅) [] [] in
  _rc w1 = Some 41
  ∧ getrefcount VNone (hp st1) = 46
  ∧ raised (release st1) = None
  ∧ warnings (final (release st1)) = []
  ∧ object (self (final (release st1))) = Some VNone
  ∧ hp (final (release st1)) = hp st1.
Proof. vm_compute. done. Qed.

(** C10.  Once [release] has deleted the [object] attribute (the wrapper
    held an object other than [None]), a second [release] raises
    [AttributeError]; so does a second [__exit__] after a first one. *)
Theorem release_twice_raises st l :
  object (self st) = Some (VObj l) →
  (∃ st1, release st = Ok tt st1
          ∧ object (self st1) = None
          ∧ release st1 = Raise (AttributeError "object") st1)
  ∧ (∃ st1, __exit__ st = Ok tt st1
            ∧ object (self st1) = None
            ∧ raised (release st1) = Some (AttributeError "object")
            ∧ raised (__exit__ st1) = Some (AttributeError "object")).
Proof.
  intros Ho. split.
  - eexists. split; [by apply release_eq|]. split; [done|].
    by apply release_deleted.
  - unfold __exit__ at 1, bind, modify, try_finally.
    rewrite (release_eq _ l) by done. simpl.
    eexists. split; [reflexivity|]. split; [done|]. split.
    + by rewrite release_deleted.
    + unfold __exit__, bind, modify, try_finally.
      by rewrite release_deleted.
Qed.

Lemma release_twice_raises_witness :
  (∃ st1, release (mkState (__init__ (VObj 7)) heap1 [] []) = Ok tt st1
          ∧ object (self st1) = None
          ∧ release st1 = Raise (AttributeError "object") st1)
  ∧ (∃ st1, __exit__ (mkState (__init__ (VObj 7)) heap1 [] []) = Ok tt st1
            ∧ object (self st1) = None
            ∧ raised (release st1) = Some (AttributeError "object")
            ∧ raised (__exit__ st1) = Some (AttributeError "object")).
Proof.
  apply (release_twice_raises (mkState (__init__ (VObj 7)) heap1 [] []) 7).
  reflexivity.
Defined.

(** ** Further properties of the wrapper *)

(** X18.  A wrapper that was never entered has recorded no count, and
    its [release] is silent whatever the reference counts are: the leak
    check only works through [__enter__]. *)
Theorem release_unentered_silent st o :
  object (self st) = Some o →
  _rc (self st) = None →
  raised (release st) = None
  ∧ warnings (final (release st)) = warnings st.
Proof.
  intros Ho Hrc. destruct o as [|l].
  - by rewrite release_None.
  - rewrite (release_eq st l Ho). simpl. rewrite Hrc. simpl.
    by rewrite app_nil_r.
Qed.

Lemma release_unentered_silent_witness :
  raised (release (mkState (__init__ (VObj 7)) heap2 [] [])) = None
  ∧ warnings (final (release (mkState (__init__ (VObj 7)) heap2 [] []))) = [].
Proof.
  apply (release_unentered_silent (mkState (__init__ (VObj 7)) heap2 [] []) (VObj 7));
    reflexivity.
Defined.

(** X19.  [__exit__] on a wrapper that holds an object other than
    [None] returns, drops the object, and issues the leak warning with
    [stacklevel=3] exactly when a recorded count is exceeded; afterwards
    the instance attribute [_exiting] is gone again. *)
Theorem exit_warns_at_level_3 st l :
  object (self st) = Some (VObj l) →
  raised (__exit__ st) = None
  ∧ warnings (final (__exit__ st)) =
      warnings st ++
      (if rc_truthy (_rc (self st))
          && rc_exceeds (getrefcount (VObj l) (hp st)) (_rc (self st))
       then [mkWarning (VObj l) 3] else [])
  ∧ object (self (final (__exit__ st))) = None
  ∧ _exiting (self (final (__exit__ st))) = None
  ∧ hp (final (__exit__ st)) = decref (VObj l) (hp st).
Proof.
  intros Ho. unfold __exit__, bind, modify, try_finally.
  rewrite (release_eq _ l) by done. simpl.
  destruct (rc_truthy (_rc (self st)) && rc_exceeds _ (_rc (self st))); done.
Qed.

Lemma exit_warns_at_level_3_witness :
  raised (__exit__ (mkState (mkSharedObject (Some (VObj 7)) (Some 2) None) heap2 [] []))
    = None
  ∧ warnings (final (__exit__ (mkState (mkSharedObject (Some (VObj 7)) (Some 2) None)
                                 heap2 [] []))) =
      [] ++
      (if rc_truthy (Some 2) && rc_exceeds (getrefcount (VObj 7) heap2) (Some 2)
       then [mkWarning (VObj 7) 3] else [])
  ∧ object (self (final (__exit__ (mkState (mkSharedObject (Some (VObj 7)) (Some 2) None)
                                    heap2 [] [])))) = None
  ∧ _exiting (self (final (__exit__ (mkState (mkSharedObject (Some (VObj 7)) (Some 2) None)
                                      heap2 [] [])))) = None
  ∧ hp (final (__exit__ (mkState (mkSharedObject (Some (VObj 7)) (Some 2) None)
                           heap2 [] []))) = decref (VObj 7) heap2.
Proof.
  apply (exit_warns_at_level_3
           (mkState (mkSharedObject (Some (VObj 7)) (Some 2) None) heap2 [] []) 7).
  reflexivity.
Defined.

(** X20.  Whatever the wrapper's state, [__exit__] leaves no [_exiting]
    instance attribute behind, also when [release] raises inside it; and
    it never touches the recorded count. *)
Theorem exit_clears_exiting st :
  _exiting (self (final (__exit__ st))) = None
  ∧ _rc (self (final (__exit__ st))) = _rc (self st).
Proof.
  unfold __exit__, bind, modify, try_finally; simpl.
  destruct (object (self st)) as [[|l]|] eqn:Ho.
  - rewrite release_None by done. done.
  - rewrite (release_eq _ l) by done. done.
  - rewrite release_deleted by done. done.
Qed.

(** X21.  The no-op store hands a model back as its own key without
    touching the store state, and the wrapper made from that key gives
    the model on entry.  Released with the reference count it was
    entered with, the wrapper is silent and drops the model. *)
Theorem noop_store_roundtrip (self_store : nat) (st : Store.state) l h ws dl :
  Store.Noop_put_model self_store (VObj l) st = Ok (VObj l) st
  ∧ ∃ w1, __enter__ (mkState (Noop_get_model (VObj l)) h ws dl)
            = Ok (VObj l) (mkState w1 h ws dl)
          ∧ release (mkState w1 h ws dl)
            = Ok tt (mkState (mkSharedObject None (_rc w1) None)
                       (decref (VObj l) h) ws dl).
Proof.
  split; [done|].
  eexists. split.
  - rewrite (wrapper_enter_eq _ (VObj l)) by done. reflexivity.
  - rewrite (release_eq _ l) by done. simpl.
    rewrite bool_decide_false by lia. simpl. by rewrite !app_nil_r.
Qed.

End WrapperFacts.

(** ** Persisted handles *)

Module PersistFacts.

Import Persist.

Section Facts.

Context {Model : Type} `{!Library Model}.

Implicit Types (w : world) (model : value Model).

(** [sharing_mode] runs its body with the flag set and puts the old
    value back. *)
Lemma sharing_mode_eq {A} (body : M world A) w :
  sharing_mode body w =
  try_finally body (set_mode (Some (_save_mode w))) (set_mode (Some "share") w).
Proof. reflexivity. Qed.

Lemma in_share_context_share w : in_share_context (set_mode (Some "share") w) = true.
Proof. reflexivity. Qed.

(** What [persist_binpickle] leaves behind. *)
Lemma persist_binpickle_eq model dir w :
  let p := default gettempdir dir +:+ "/" +:+ "lkpy-" +:+ mkstemp_token (files w)
             +:+ ".bpk" in
  persist_binpickle model dir w =
  Ok (BPKPersisted_init p)
     (mkWorld (environ w) (shm w)
        (<[p := binpickle_dump true model]> (<[p := []]> (files w)))
        (segments w) (close_errors w) (Some (_save_mode w)) (log w)).
Proof. reflexivity. Qed.

(** Under the round trip of binpickle, [get] on a fresh file-backed
    handle returns the model. *)
Lemma bpk_roundtrip model dir w :
  (∀ v, binpickle_load (binpickle_dump true v) = Some v) →
  ∃ h w1, persist_binpickle model dir w = Ok h w1
          ∧ ∃ s2, bpk_get (h, w1) = Ok model s2.
Proof.
  intros Hrt. rewrite persist_binpickle_eq. cbv zeta.
  eexists _, _. split; [reflexivity|].
  unfold bpk_get, bind, gets, in_world, update_self, modify,
    BinPickleFile_open, BinPickleFile_load, ret; simpl.
  rewrite lookup_insert_eq; simpl. rewrite Hrt; simpl. eauto.
Qed.

Lemma stored_weaken segs segs' key buf :
  segs ⊆ segs' → stored segs key buf → stored segs' key buf.
Proof.
  intros Hsub (d & Hd & Ht). exists d. split; [|done].
  by eapply lookup_weaken.
Qed.

(** One call of the buffer callback: a fresh segment now starts with the
    buffer, and nothing else has changed. *)
Lemma buf_cb_eq ba w :
  let name := fresh_string "psm_" (segments w) in
  let size := shm_block_size (length ba) in
  buf_cb ba w =
  Ok (mkSharedMemory name size, (name, length ba))
     (set_segments
        (<[name := ba ++ drop (length ba) (replicate size x00)]> (segments w)) w).
Proof.
  intros name size. unfold buf_cb, bind, SharedMemory_create, blit, ret; simpl.
  fold name size. rewrite decide_True by apply shm_block_size_ge.
  unfold modify, set_segments; simpl. by rewrite alter_insert_eq.
Qed.

Lemma dump_buffers_ok bufs : ∀ w,
  ∃ blocks keys w',
    dump_buffers bufs w = Ok (blocks, keys) w'
    ∧ segments w ⊆ segments w'
    ∧ w' = set_segments (segments w') w
    ∧ Forall2 (stored (segments w')) keys bufs
    ∧ keys = zip (blk_name <$> blocks) (length <$> bufs).
Proof.
  induction bufs as [|ba bufs IH]; intros w.
  - exists [], [], w. simpl. split; [done|]. split; [done|].
    split; [by destruct w|]. split; [constructor|done].
  - simpl. unfold bind at 1. rewrite buf_cb_eq. cbv zeta.
    set (name := fresh_string "psm_" (segments w)).
    set (w1 := set_segments _ w).
    destruct (IH w1) as (blocks & keys & w' & Hd & Hsub & Hw' & Hst & Hk).
    unfold bind at 1. rewrite Hd. unfold ret; simpl.
    eexists _, _, _. split; [reflexivity|].
    assert (segments w ⊆ segments w1) as Hsub1.
    { unfold w1; simpl. apply insert_subseteq, fresh_string_fresh. }
    split; [by etrans|]. split.
    { revert Hw'. unfold w1, set_segments; simpl. by intros ->. }
    split.
    + constructor; [|done].
      eexists. split.
      * simpl. eapply lookup_weaken; [|exact Hsub].
        unfold w1; simpl. apply lookup_insert_eq.
      * simpl. apply take_app_length.
    + simpl. by rewrite Hk.
Qed.

Lemma attach_all_ok specs : ∀ views w,
  shm w = true →
  Forall2 (stored (segments w)) specs views →
  ∃ blocks, attach_all specs w = Ok (views, blocks) w.
Proof.
  induction specs as [|[bn bs] specs IH]; intros views w Hshm Hst.
  - apply Forall2_nil_inv_l in Hst as ->. by exists [].
  - apply Forall2_cons_inv_l in Hst as (v & views' & (d & Hd & Ht) & Hst & ->).
    destruct (IH views' w Hshm Hst) as (blocks & Hat).
    simpl in *. unfold bind, SharedMemory_attach.
    rewrite Hshm, Hd, Hat. unfold ret; simpl. rewrite Ht. eauto.
Qed.

(** Under the round trip of pickle, [get] on a fresh shared-memory handle
    returns the model. *)
Lemma shm_roundtrip model w :
  shm w = true →
  (∀ v, pickle_loads (pickle_dumps true v).1 (pickle_dumps true v).2 = Some v) →
  ∃ h w1, persist_shm model w = Ok h w1
          ∧ ∃ s2, shm_get (h, w1) = Ok model s2.
Proof.
  intros Hshm Hrt.
  unfold persist_shm, bind at 1, gets at 1. rewrite Hshm.
  unfold bind at 1. rewrite sharing_mode_eq.
  unfold try_finally, bind at 1, gets at 1.
  rewrite in_share_context_share.
  destruct (dump_buffers_ok (pickle_dumps true model).2 (set_mode (Some "share") w))
    as (blocks & keys & w' & Hd & _ & Hw' & Hst & _).
  unfold bind at 1. rewrite Hd. unfold ret at 1 2.
  eexists _, _. split; [reflexivity|].
  set (w1 := set_mode _ w').
  destruct (attach_all_ok keys (pickle_dumps true model).2 w1) as (blocks' & Hat).
  { unfold w1; simpl. by rewrite Hw'. }
  { done. }
  unfold shm_get, bind, gets, in_world, update_self, modify; simpl.
  rewrite Hat; simpl. rewrite Hrt. unfold ret; simpl. eauto.
Qed.

Lemma persist_shm_ok model w :
  shm w = true → ∃ h w1, persist_shm model w = Ok h w1.
Proof.
  intros Hshm.
  unfold persist_shm, bind at 1, gets at 1. rewrite Hshm.
  unfold bind at 1. rewrite sharing_mode_eq.
  unfold try_finally, bind at 1, gets at 1.
  destruct (dump_buffers_ok
              (pickle_dumps (in_share_context (set_mode (Some "share") w)) model).2
              (set_mode (Some "share") w))
    as (blocks & keys & w' & Hd & _).
  unfold bind at 1. rewrite Hd. unfold ret. eauto.
Qed.

(** *** Closing *)

(** A loop whose body only touches the world leaves the handle alone. *)
Lemma for_each_in_world {H A} (c : A → M world unit) (xs : list A) (h : H) w :
  for_each xs (λ x, in_world (c x)) (h, w) = in_world (for_each xs c) (h, w).
Proof.
  revert w. induction xs as [|x xs IH]; intros w; [done|].
  simpl. unfold bind, in_world in *; simpl.
  destruct (c x w) as [[] w'|e w']; simpl; [|done].
  apply IH.
Qed.

(** A file-backed handle with no open file and no ownership: [close]
    does nothing. *)
Lemma bpk_close_idle u (h : BPKPersisted Model) w :
  _bpk_file h = None → bpk_is_owner h = false →
  bpk_close u (h, w) = Ok tt (h, w).
Proof.
  intros Hf Ho. destruct h; simpl in *; subst. reflexivity.
Qed.

(** After a [close] that returned, no file is open, and with
    [unlink=True] the handle owns nothing. *)
Lemma bpk_close_ok_inv u (h : BPKPersisted Model) w s1 :
  bpk_close u (h, w) = Ok tt s1 →
  _bpk_file s1.1 = None ∧ (u = true → bpk_is_owner s1.1 = false).
Proof.
  destruct h as [p o f m].
  unfold bpk_close, bind, gets, update_self, modify, try_except_IOError,
    in_world, BinPickleFile_close, unlink, ret, raise; simpl.
  intros Hc.
  repeat (simpl in *; case_match; simplify_eq); simpl; auto.
  all: split; [done|]; intros ->; by destruct o.
Qed.

Lemma shm_close_idle u (h : SHMPersisted Model) w :
  shm_is_owner h = false → shm_model h = VNone →
  shm_close u (h, w) = Ok tt (h, w).
Proof.
  intros Ho Hm. unfold shm_close, bind, gets, update_self, modify; simpl.
  rewrite Ho. destruct h; simpl in *. by subst.
Qed.

Lemma shm_close_ok_inv u (h : SHMPersisted Model) w s1 :
  shm_close u (h, w) = Ok tt s1 →
  shm_is_owner s1.1 = false ∧ shm_model s1.1 = VNone.
Proof.
  destruct h as [d sp bs o m].
  unfold shm_close, bind at 1, update_self, modify; simpl.
  unfold bind at 1, gets at 1; simpl.
  destruct o; [|unfold ret; intros ?; by simplify_eq].
  unfold bind at 1, gets at 1; simpl.
  unfold bind at 1. rewrite for_each_in_world. unfold in_world at 1; simpl.
  destruct (for_each _ _ w) as [[] w'|e w']; [|done].
  unfold bind, del_buffers, update_self, modify; simpl.
  destruct bs; simpl; intros ?; by simplify_eq.
Qed.

(** C3.  For either kind of handle, once [close()] has returned, a
    further [close] (with any [unlink] flag) returns without raising and
    leaves the handle, the files, the segments and the log exactly as
    they were: nothing is released a second time. *)
Theorem close_twice_noop :
  (∀ (h : BPKPersisted Model) w s1 u,
     bpk_close true (h, w) = Ok tt s1 → bpk_close u s1 = Ok tt s1)
  ∧ (∀ (h : SHMPersisted Model) w s1 u,
       shm_close true (h, w) = Ok tt s1 → shm_close u s1 = Ok tt s1).
Proof.
  split.
  - intros h w [h1 w1] u Hc.
    apply bpk_close_ok_inv in Hc as [Hf Ho]. simpl in *.
    apply bpk_close_idle; auto.
  - intros h w [h1 w1] u Hc.
    apply shm_close_ok_inv in Hc as [Ho Hm]. simpl in *.
    by apply shm_close_idle.
Qed.

(** *** Copies sent to another process *)

Lemma attach_all_world specs w : final (attach_all specs w) = w.
Proof.
  induction specs as [|[bn bs] specs IH]; [done|].
  simpl. unfold bind, SharedMemory_attach.
  destruct (shm w); [|done].
  destruct (segments w !! bn); [|done].
  destruct (attach_all specs w); simpl in *; by subst.
Qed.

Lemma bpk_get_frame (s : BPKPersisted Model * world) :
  (final (bpk_get s)).2 = s.2
  ∧ bpk_is_owner (final (bpk_get s)).1 = bpk_is_owner s.1
  ∧ path (final (bpk_get s)).1 = path s.1.
Proof.
  destruct s as [[p o f m] w].
  unfold bpk_get, bind, gets, update_self, modify, in_world,
    BinPickleFile_open, BinPickleFile_load, ret, raise; simpl.
  repeat (case_match; simplify_eq; simpl in *); done.
Qed.

Lemma bpk_close_frame u (s : BPKPersisted Model * world) :
  bpk_is_owner s.1 = false →
  files (final (bpk_close u s)).2 = files s.2
  ∧ segments (final (bpk_close u s)).2 = segments s.2
  ∧ bpk_is_owner (final (bpk_close u s)).1 = false
  ∧ path (final (bpk_close u s)).1 = path s.1.
Proof.
  destruct s as [[p o f m] w]. simpl. intros ->.
  unfold bpk_close, bind, gets, update_self, modify, try_except_IOError,
    in_world, BinPickleFile_close, ret, raise; simpl.
  repeat (case_match; simplify_eq; simpl in *); done.
Qed.

Lemma shm_get_frame (s : SHMPersisted Model * world) :
  (final (shm_get s)).2 = s.2
  ∧ shm_is_owner (final (shm_get s)).1 = shm_is_owner s.1
  ∧ pickle_data (final (shm_get s)).1 = pickle_data s.1
  ∧ buffer_specs (final (shm_get s)).1 = buffer_specs s.1.
Proof.
  destruct s as [[d sp bs o m] w].
  unfold shm_get, bind, gets, update_self, modify, in_world, ret, raise; simpl.
  destruct m; simpl; [|done].
  pose proof (attach_all_world sp w) as Hw.
  destruct (attach_all sp w) as [r w'|e w']; simpl in *; subst; [|done].
  destruct (pickle_loads d r.1); done.
Qed.

Lemma shm_close_frame u (s : SHMPersisted Model * world) :
  shm_is_owner s.1 = false →
  (final (shm_close u s)).2 = s.2
  ∧ shm_is_owner (final (shm_close u s)).1 = false
  ∧ pickle_data (final (shm_close u s)).1 = pickle_data s.1
  ∧ buffer_specs (final (shm_close u s)).1 = buffer_specs s.1.
Proof.
  destruct s as [[d sp bs o m] w]. simpl. intros ->. done.
Qed.

Lemma bpk_run_frame ops : ∀ (s : BPKPersisted Model * world),
  bpk_is_owner s.1 = false →
  files (bpk_run ops s).2 = files s.2
  ∧ segments (bpk_run ops s).2 = segments s.2
  ∧ bpk_is_owner (bpk_run ops s).1 = false
  ∧ path (bpk_run ops s).1 = path s.1.
Proof.
  induction ops as [|o ops IH]; intros s Ho; [done|].
  unfold bpk_run in *. simpl.
  destruct o as [|u]; simpl.
  - destruct (bpk_get_frame s) as (Hw & Ho' & Hp).
    destruct (IH (final (bpk_get s))) as (? & ? & ? & ?); [congruence|].
    rewrite <- Hw, <- Hp. done.
  - destruct (bpk_close_frame u s Ho) as (Hf & Hs & Ho' & Hp).
    destruct (IH (final (bpk_close u s)) Ho') as (? & ? & ? & ?).
    rewrite <- Hf, <- Hs, <- Hp. done.
Qed.

Lemma shm_run_frame ops : ∀ (s : SHMPersisted Model * world),
  shm_is_owner s.1 = false →
  (shm_run ops s).2 = s.2
  ∧ shm_is_owner (shm_run ops s).1 = false
  ∧ pickle_data (shm_run ops s).1 = pickle_data s.1
  ∧ buffer_specs (shm_run ops s).1 = buffer_specs s.1.
Proof.
  induction ops as [|o ops IH]; intros s Ho; [done|].
  unfold shm_run in *. simpl.
  destruct o as [|u]; simpl.
  - destruct (shm_get_frame s) as (Hw & Ho' & Hd & Hsp).
    destruct (IH (final (shm_get s))) as (? & ? & ? & ?); [congruence|].
    rewrite <- Hw, <- Hd, <- Hsp. done.
  - destruct (shm_close_frame u s Ho) as (Hw & Ho' & Hd & Hsp).
    destruct (IH (final (shm_close u s)) Ho') as (? & ? & ? & ?).
    rewrite <- Hw, <- Hd, <- Hsp. done.
Qed.

(** C4.  The copy of a handle that pickling and unpickling produce has
    its ownership flag cleared and the same resource identifiers: the
    path for a file-backed handle, the pickle bytes and the descriptors
    for a shared-memory handle.  Whatever sequence of [get] and [close]
    calls is then made on the copy, returning or raising, no file is
    deleted and no segment unlinked, and the flag and the identifiers
    stay as they are. *)
Theorem transmitted_copy_never_releases :
  (∀ (h : BPKPersisted Model) file' model',
     let c := bpk_setstate (bpk_getstate h) file' model' in
     bpk_is_owner c = false ∧ path c = path h
     ∧ ∀ ops w,
         files (bpk_run ops (c, w)).2 = files w
         ∧ segments (bpk_run ops (c, w)).2 = segments w
         ∧ bpk_is_owner (bpk_run ops (c, w)).1 = false
         ∧ path (bpk_run ops (c, w)).1 = path h)
  ∧ (∀ (h : SHMPersisted Model),
       let c : SHMPersisted Model := shm_setstate (shm_getstate h) in
       shm_is_owner c = false
       ∧ pickle_data c = pickle_data h
       ∧ buffer_specs c = buffer_specs h
       ∧ ∀ ops w,
           files (shm_run ops (c, w)).2 = files w
           ∧ segments (shm_run ops (c, w)).2 = segments w
           ∧ shm_is_owner (shm_run ops (c, w)).1 = false
           ∧ pickle_data (shm_run ops (c, w)).1 = pickle_data h
           ∧ buffer_specs (shm_run ops (c, w)).1 = buffer_specs h).
Proof.
  split.
  - intros h file' model' c. split; [done|]. split; [done|].
    intros ops w. by apply (bpk_run_frame ops (c, w)).
  - intros h c. split; [done|]. split; [done|]. split; [done|].
    intros ops w.
    destruct (shm_run_frame ops (c, w)) as (Hw & Ho & Hd & Hsp); [done|].
    rewrite Hw. done.
Qed.

(** *** Failures while closing *)




End Facts.

#[local] Existing Instance toy_library.

Lemma toy_binpickle_roundtrip v :
  binpickle_load (binpickle_dump true v) = Some v.
Proof. by destruct v. Qed.

Lemma toy_pickle_roundtrip v :
  pickle_loads (pickle_dumps true v).1 (pickle_dumps true v).2 = Some v.
Proof. by destruct v. Qed.



Lemma close_twice_noop_witness :
  (∃ s1, bpk_close true (demo_bpk, demo_bpk_world) = Ok tt s1
         ∧ bpk_close true s1 = Ok tt s1)
  ∧ (∃ s1, shm_close true (demo_shm, demo_shm_world) = Ok tt s1
           ∧ shm_close true s1 = Ok tt s1).
Proof.
  destruct (close_twice_noop (Model := bytes)) as [Hb Hs].
  split.
  - eexists. split; [reflexivity|].
    apply (Hb demo_bpk demo_bpk_world). reflexivity.
  - eexists. split; [reflexivity|].
    apply (Hs demo_shm demo_shm_world). reflexivity.
Defined.

(** The first [close] of the witness deletes the file and unlinks both
    segments. *)
Example close_releases_example :
  files (final (bpk_close true (demo_bpk, demo_bpk_world))).2 = ∅
  ∧ segments (final (shm_close true (demo_shm, demo_shm_world))).2 = ∅.
Proof. vm_compute. done. Qed.



(** ** Further properties of the handles *)

Section MoreFacts.

Context {Model : Type} `{!Library Model}.

Implicit Types (w : world) (model : value Model).

(** X1.  Whatever the body does, returning or raising, [sharing_mode]
    starts it with the flag set and leaves the mode as it found it; the
    outcome is the body's. *)
Theorem sharing_mode_restores {A} (body : M world A) w :
  _save_mode (final (sharing_mode body w)) = _save_mode w
  ∧ in_share_context (final (sharing_mode body w)) = in_share_context w
  ∧ raised (sharing_mode body w) = raised (body (set_mode (Some "share") w))
  ∧ in_share_context (set_mode (Some "share") w) = true.
Proof.
  rewrite sharing_mode_eq. unfold try_finally.
  destruct (body (set_mode (Some "share") w)); done.
Qed.

(** The names of the blocks a run of the buffer callback creates are
    pairwise different and were free before; every other segment is
    untouched. *)
Lemma dump_buffers_names bufs : ∀ w blocks keys w',
  dump_buffers bufs w = Ok (blocks, keys) w' →
  length blocks = length bufs
  ∧ NoDup (blk_name <$> blocks)
  ∧ (∀ n, n ∈ blk_name <$> blocks →
          segments w !! n = None ∧ is_Some (segments w' !! n))
  ∧ (∀ n, n ∉ blk_name <$> blocks → segments w' !! n = segments w !! n).
Proof.
  induction bufs as [|ba bufs IH]; intros w blocks keys w' Hd.
  - simpl in Hd. unfold ret in Hd. simplify_eq. simpl.
    split; [done|]. split; [constructor|]. split; [|done].
    intros n Hn. by apply elem_of_nil in Hn.
  - simpl in Hd. unfold bind at 1 in Hd. rewrite buf_cb_eq in Hd. cbv zeta in Hd.
    set (name := fresh_string "psm_" (segments w)) in *.
    set (w1 := set_segments _ w) in *.
    unfold bind at 1 in Hd.
    destruct (dump_buffers bufs w1) as [[bs ks] w2|e w2] eqn:Hrest; [|done].
    unfold ret in Hd. simplify_eq. simpl.
    destruct (IH w1 bs ks w' Hrest) as (Hlen & Hnd & Hin & Hout).
    assert (segments w !! name = None) as Hfresh by apply fresh_string_fresh.
    assert (segments w1 !! name = Some (ba ++ drop (length ba)
              (replicate (shm_block_size (length ba)) x00))) as Hname.
    { unfold w1; simpl. apply lookup_insert_eq. }
    assert (name ∉ blk_name <$> bs) as Hnotin.
    { intros Hn. destruct (Hin name Hn) as [Hnone _].
      pose proof (eq_trans (eq_sym Hname) Hnone). done. }
    split; [by rewrite Hlen|]. split; [by constructor|]. split.
    + intros n Hn. apply elem_of_cons in Hn as [->|Hn].
      * split; [done|]. eexists. etrans; [exact (Hout name Hnotin)|exact Hname].
      * destruct (Hin n Hn) as [Hnone Hsome]. split; [|done].
        destruct (decide (name = n)) as [<-|Hne];
          [pose proof (eq_trans (eq_sym Hname) Hnone); done|].
        etrans; [|exact Hnone]. unfold w1; simpl.
        symmetry. by apply lookup_insert_ne.
    + intros n Hn. apply not_elem_of_cons in Hn as [Hne Hn].
      etrans; [exact (Hout n Hn)|]. unfold w1; simpl.
      by apply lookup_insert_ne.
Qed.

(** [persist_shm] in terms of the buffer callback's run. *)
Lemma persist_shm_eq model w :
  shm w = true →
  ∃ blocks keys w',
    dump_buffers (pickle_dumps true model).2 (set_mode (Some "share") w)
      = Ok (blocks, keys) w'
    ∧ persist_shm model w =
        Ok (SHMPersisted_init (pickle_dumps true model).1 keys blocks)
           (set_mode (Some (_save_mode w)) w').
Proof.
  intros Hshm.
  destruct (dump_buffers_ok (pickle_dumps true model).2 (set_mode (Some "share") w))
    as (blocks & keys & w' & Hd & _).
  exists blocks, keys, w'. split; [done|].
  unfold persist_shm, bind at 1, gets at 1. rewrite Hshm.
  unfold bind at 1. rewrite sharing_mode_eq.
  unfold try_finally, bind at 1, gets at 1.
  rewrite in_share_context_share.
  unfold bind at 1. rewrite Hd. reflexivity.
Qed.

Lemma persist_shm_no_shm model w :
  shm w = false →
  persist_shm model w = Raise (ImportError "multiprocessing.shared_memory") w.
Proof.
  intros Hshm. unfold persist_shm, bind, gets. by rewrite Hshm.
Qed.

(** X2.  Without shared memory [persist_shm] raises [ImportError] at
    once: no segment is created and the world is as it was. *)
Theorem persist_shm_unavailable model w :
  shm w = false →
  persist_shm model w = Raise (ImportError "multiprocessing.shared_memory") w
  ∧ final (persist_shm model w) = w.
Proof.
  intros Hshm. by rewrite persist_shm_no_shm.
Qed.


(** X4.  [persist_shm] leaves every segment that existed, every file,
    the environment and the sharing mode as they were. *)
Theorem persist_shm_frame model w h w1 :
  persist_shm model w = Ok h w1 →
  segments w ⊆ segments w1
  ∧ files w1 = files w
  ∧ environ w1 = environ w
  ∧ _save_mode w1 = _save_mode w
  ∧ log w1 = log w.
Proof.
  intros Hp.
  destruct (shm w) eqn:Hshm.
  - destruct (dump_buffers_ok (pickle_dumps true model).2 (set_mode (Some "share") w))
      as (blocks & keys & w' & Hd & Hsub & Hw' & _).
    destruct (persist_shm_eq model w Hshm) as (blocks' & keys' & w'' & Hd' & Hp').
    rewrite Hd in Hd'. simplify_eq. rewrite Hp in Hp'. simplify_eq.
    simpl. split; [done|]. rewrite Hw'. done.
  - by rewrite persist_shm_no_shm in Hp.
Qed.

(** Unlinking blocks with pairwise different names, all present: the
    loop of [close] returns, and exactly these names are gone. *)
Lemma unlink_all blocks : ∀ w,
  NoDup (blk_name <$> blocks) →
  (∀ n, n ∈ blk_name <$> blocks → is_Some (segments w !! n)) →
  ∃ segs : gmap string bytes,
    for_each blocks (λ buf, SharedMemory_close buf ;;; SharedMemory_unlink buf) w
      = Ok tt (set_segments segs w)
    ∧ ∀ k, segs !! k = if decide (k ∈ blk_name <$> blocks) then None
                       else segments w !! k.
Proof.
  induction blocks as [|b bs IH]; intros w Hnd Hin.
  - exists (segments w). split; [by destruct w|].
    intros k. rewrite decide_False; [done|]. apply not_elem_of_nil.
  - simpl in Hnd. apply NoDup_cons in Hnd as [Hnotin Hnd].
    destruct (Hin (blk_name b)) as [d Hd]; [by left|].
    set (w1 := set_segments (delete (blk_name b) (segments w)) w).
    destruct (IH w1 Hnd) as (segs & Hrun & Hlook).
    { intros n Hn. destruct (Hin n) as [d' Hd']; [by right|].
      exists d'. etrans; [|exact Hd']. unfold w1; simpl.
      apply lookup_delete_ne. intros <-. done. }
    exists segs. split.
    + assert ((SharedMemory_close b ;;; SharedMemory_unlink b) w = Ok tt w1)
        as Hstep.
      { cbv [bind SharedMemory_close ret SharedMemory_unlink].
        destruct (segments w !! blk_name b) eqn:E; [reflexivity|done]. }
      simpl. unfold bind at 1. rewrite Hstep, Hrun. by destruct w.
    + intros k. etrans; [exact (Hlook k)|]. simpl.
      destruct (decide (k = blk_name b)) as [->|Hne].
      * rewrite decide_False by done. rewrite decide_True by by left.
        unfold w1; simpl. apply lookup_delete_eq.
      * destruct (decide (k ∈ blk_name <$> bs)) as [Hk|Hk].
        -- rewrite decide_True by by right. done.
        -- rewrite decide_False.
           ++ unfold w1; simpl. by apply lookup_delete_ne.
           ++ intros [?|?]%elem_of_cons; done.
Qed.

(** Persisting to shared memory and closing, step by step. *)
Lemma persist_shm_close_full model w h w1 u :
  persist_shm model w = Ok h w1 →
  ∃ blocks,
    buffers h = Some blocks
    ∧ buffer_specs h =
        zip (blk_name <$> blocks) (length <$> (pickle_dumps true model).2)
    ∧ length blocks = length (pickle_dumps true model).2
    ∧ (∀ n, n ∈ blk_name <$> blocks → segments w !! n = None)
    ∧ shm w1 = true
    ∧ files w1 = files w
    ∧ shm_close u (h, w1) =
        Ok tt (mkSHM (pickle_data h) (buffer_specs h) None false VNone,
               set_segments (segments w) w1).
Proof.
  intros Hp.
  destruct (shm w) eqn:Hshm; [|by rewrite persist_shm_no_shm in Hp].
  destruct (persist_shm_eq model w Hshm) as (blocks & keys & w' & Hd & Hp').
  rewrite Hp in Hp'. injection Hp' as -> ->.
  destruct (dump_buffers_names _ _ _ _ _ Hd) as (Hlen & Hnd & Hin & Hout).
  destruct (dump_buffers_ok (pickle_dumps true model).2 (set_mode (Some "share") w))
    as (blocks2 & keys2 & w2 & Hd2 & _ & Hw' & _ & Hk).
  rewrite Hd in Hd2. injection Hd2 as <- <- <-.
  set (w1 := set_mode (Some (_save_mode w)) w').
  destruct (unlink_all blocks w1 Hnd) as (segs & Hrun & Hlook).
  { intros n Hn. by destruct (Hin n Hn). }
  assert (segs = segments w) as ->.
  { apply map_eq. intros k. etrans; [exact (Hlook k)|].
    destruct (decide (k ∈ blk_name <$> blocks)) as [Hk'|Hk'].
    - destruct (Hin k Hk') as [Hnone _]. symmetry. exact Hnone.
    - exact (Hout k Hk'). }
  exists blocks. simpl.
  split; [done|]. split; [done|]. split; [done|].
  split; [intros n Hn; by destruct (Hin n Hn)|].
  split; [by rewrite Hw'|]. split; [by rewrite Hw'|].
  unfold shm_close, bind at 1, update_self, modify; simpl.
  unfold bind at 1, gets at 1; simpl.
  unfold bind at 1, gets at 1; simpl.
  unfold bind at 1. rewrite for_each_in_world. unfold in_world at 1; simpl.
  fold w1. rewrite Hrun. reflexivity.
Qed.

(** X5.  A handle fresh from [persist_shm] closes without raising, and
    afterwards the shared-memory name space is exactly what it was
    before the model was persisted: every segment created for the model
    is unlinked, and no other.  The handle has given up ownership and
    its block list. *)
Theorem persist_shm_close_restores model w h w1 u :
  persist_shm model w = Ok h w1 →
  ∃ h' w2, shm_close u (h, w1) = Ok tt (h', w2)
           ∧ segments w2 = segments w
           ∧ files w2 = files w
           ∧ shm_is_owner h' = false
           ∧ buffers h' = None
           ∧ buffer_specs h' = buffer_specs h.
Proof.
  intros Hp.
  destruct (persist_shm_close_full model w h w1 u Hp)
    as (blocks & _ & _ & _ & _ & _ & Hf & Hc).
  eexists _, _. split; [exact Hc|]. simpl. done.
Qed.


(** X7.  [close(unlink=False)] never deletes a file and never changes
    who owns it, whatever the handle and whether it returns or raises. *)
Theorem bpk_close_keep_file (h : BPKPersisted Model) w :
  files (final (bpk_close false (h, w))).2 = files w
  ∧ bpk_is_owner (final (bpk_close false (h, w))).1 = bpk_is_owner h
  ∧ path (final (bpk_close false (h, w))).1 = path h.
Proof.
  destruct h as [p o f m].
  unfold bpk_close, bind, gets, update_self, modify, try_except_IOError,
    in_world, BinPickleFile_close, ret, raise; simpl.
  destruct o; repeat (case_match; simplify_eq; simpl in *); done.
Qed.

(** X8.  Once [get] has returned, the handle answers from its cache:
    a further [get] returns the same value and changes nothing, even in a
    world where the file is gone. *)
Theorem bpk_get_cached (h : BPKPersisted Model) w v s1 :
  bpk_get (h, w) = Ok v s1 →
  ∀ w', bpk_get (s1.1, w') = Ok v (s1.1, w').
Proof.
  destruct h as [p o f m].
  unfold bpk_get, bind, gets, update_self, modify, in_world,
    BinPickleFile_open, BinPickleFile_load, ret, raise; simpl.
  intros Hg w'.
  repeat (case_match; simplify_eq; simpl in *); done.
Qed.

(** X9.  [get] on a handle whose file is missing raises
    [FileNotFoundError] and leaves the handle as it was. *)
Theorem bpk_get_missing (h : BPKPersisted Model) w :
  _bpk_file h = None →
  files w !! path h = None →
  bpk_get (h, w) = Raise (FileNotFoundError (path h)) (h, w).
Proof.
  destruct h as [p o f m]. simpl. intros -> Hf.
  unfold bpk_get, bind, gets, in_world, BinPickleFile_open; simpl.
  by rewrite Hf.
Qed.


(** X11.  After an owner's [close()] has returned, the file is gone: a
    [get] on the closed handle raises [FileNotFoundError]. *)
Theorem bpk_get_after_close (h : BPKPersisted Model) w s1 :
  bpk_is_owner h = true →
  bpk_close true (h, w) = Ok tt s1 →
  bpk_get s1 = Raise (FileNotFoundError (path h)) s1.
Proof.
  destruct h as [p o f m]. simpl. intros ->.
  unfold bpk_close, bind, gets, update_self, modify, try_except_IOError,
    in_world, BinPickleFile_close, unlink, ret, raise; simpl.
  intros Hc.
  repeat (simpl in *; case_match; simplify_eq).
  all: unfold bpk_get, bind, gets, in_world, BinPickleFile_open; simpl.
  all: by rewrite lookup_delete_eq.
Qed.

(** X12.  Once [get] has returned a model other than [None], the
    shared-memory handle answers from its cache: a further [get] returns
    the same model and changes nothing, even in a world where the
    segments are gone. *)
Theorem shm_get_cached (h : SHMPersisted Model) w m s1 :
  shm_get (h, w) = Ok (VObj m) s1 →
  ∀ w', shm_get (s1.1, w') = Ok (VObj m) (s1.1, w').
Proof.
  destruct h as [d sp bs o md].
  unfold shm_get, bind, gets, update_self, modify, in_world, ret, raise; simpl.
  intros Hg w'.
  destruct md; simpl in *.
  - destruct (attach_all sp w) as [r w2|e w2]; simpl in *; [|done].
    destruct (pickle_loads d r.1) as [v|]; simpl in *; [|done].
    by simplify_eq.
  - by simplify_eq.
Qed.

(** The loop of [get] stops at the first descriptor whose segment is
    missing. *)
Lemma attach_all_missing specs : ∀ w bn bs,
  shm w = true →
  (bn, bs) ∈ specs →
  segments w !! bn = None →
  ∃ n, attach_all specs w = Raise (FileNotFoundError n) w
       ∧ segments w !! n = None.
Proof.
  induction specs as [|[bn0 bs0] specs IH]; intros w bn bs Hshm Hin Hnone.
  - by apply elem_of_nil in Hin.
  - simpl. unfold bind at 1, SharedMemory_attach. rewrite Hshm.
    destruct (segments w !! bn0) as [d|] eqn:Hd; [|by exists bn0].
    apply elem_of_cons in Hin as [Heq|Hin].
    { injection Heq as -> ->. pose proof (eq_trans (eq_sym Hd) Hnone). done. }
    destruct (IH w bn bs Hshm Hin Hnone) as (n & Hat & Hn).
    exists n. unfold bind. by rewrite Hat.
Qed.

Lemma shm_get_no_segment (h : SHMPersisted Model) w bn bs :
  shm_model h = VNone →
  shm w = true →
  (bn, bs) ∈ buffer_specs h →
  segments w !! bn = None →
  ∃ n, shm_get (h, w) = Raise (FileNotFoundError n) (h, w)
       ∧ segments w !! n = None.
Proof.
  destruct h as [d sp bfs o md]. simpl. intros -> Hshm Hin Hnone.
  destruct (attach_all_missing sp w bn bs Hshm Hin Hnone) as (n & Hat & Hn).
  exists n. split; [|done].
  unfold shm_get, bind, gets, in_world; simpl. by rewrite Hat.
Qed.

(** X13.  [get] on a handle that has not loaded its model raises
    [FileNotFoundError] when a segment named by a descriptor is missing,
    and leaves the handle as it was. *)
Theorem shm_get_missing (h : SHMPersisted Model) w bn bs :
  shm_model h = VNone →
  shm w = true →
  (bn, bs) ∈ buffer_specs h →
  segments w !! bn = None →
  ∃ n, shm_get (h, w) = Raise (FileNotFoundError n) (h, w)
       ∧ segments w !! n = None.
Proof. apply shm_get_no_segment. Qed.

(** X14.  After the owner has closed a handle fresh from [persist_shm]
    whose model has at least one out-of-band buffer, the segments are
    gone: [get] on the closed handle raises [FileNotFoundError]. *)
Theorem shm_get_after_close model w h w1 u s2 :
  persist_shm model w = Ok h w1 →
  (pickle_dumps true model).2 ≠ [] →
  shm_close u (h, w1) = Ok tt s2 →
  ∃ n, shm_get s2 = Raise (FileNotFoundError n) s2.
Proof.
  intros Hp Hne Hc.
  destruct (persist_shm_close_full model w h w1 u Hp)
    as (blocks & _ & Hsp & Hlen & Hfresh & Hshm & _ & Hc').
  rewrite Hc in Hc'. injection Hc' as ->.
  destruct blocks as [|b blocks];
    [by destruct ((pickle_dumps true model).2)|].
  destruct ((pickle_dumps true model).2) as [|ba bufs] eqn:Hb; [done|].
  destruct (shm_get_no_segment
              (mkSHM (pickle_data h) (buffer_specs h) None false VNone)
              (set_segments (segments w) w1) (blk_name b) (length ba))
    as (n & Hg & _); [done|done| | |by exists n].
  - simpl. rewrite Hsp. simpl. by left.
  - simpl. apply Hfresh. by left.
Qed.

End MoreFacts.

Lemma persist_shm_unavailable_witness :
  persist_shm (VObj [x6c; x6b]) (mkWorld ∅ false ∅ ∅ ∅ None [])
  = Raise (ImportError "multiprocessing.shared_memory")
      (mkWorld ∅ false ∅ ∅ ∅ None [])
  ∧ final (persist_shm (VObj [x6c; x6b]) (mkWorld ∅ false ∅ ∅ ∅ None []))
    = mkWorld ∅ false ∅ ∅ ∅ None [].
Proof.
  apply (persist_shm_unavailable (VObj [x6c; x6b]) (mkWorld ∅ false ∅ ∅ ∅ None [])).
  reflexivity.
Defined.


Lemma persist_shm_frame_witness :
  ∃ h w1,
    persist_shm (VObj [x6c; x6b]) demo_shm_world = Ok h w1
    ∧ segments demo_shm_world ⊆ segments w1
    ∧ files w1 = files demo_shm_world
    ∧ environ w1 = environ demo_shm_world
    ∧ _save_mode w1 = _save_mode demo_shm_world
    ∧ log w1 = log demo_shm_world.
Proof.
  eexists _, _. split; [reflexivity|].
  eapply (persist_shm_frame (VObj [x6c; x6b]) demo_shm_world). reflexivity.
Defined.

Lemma persist_shm_close_restores_witness :
  ∃ h w1,
    persist_shm (VObj [x6c; x6b]) demo_shm_world = Ok h w1
    ∧ ∃ h' w2, shm_close true (h, w1) = Ok tt (h', w2)
               ∧ segments w2 = segments demo_shm_world
               ∧ files w2 = files demo_shm_world
               ∧ shm_is_owner h' = false
               ∧ buffers h' = None
               ∧ buffer_specs h' = buffer_specs h.
Proof.
  eexists _, _. split; [reflexivity|].
  eapply (persist_shm_close_restores (VObj [x6c; x6b]) demo_shm_world).
  reflexivity.
Defined.

Lemma bpk_get_cached_witness :
  ∃ s1, bpk_get (demo_bpk, demo_bpk_world) = Ok (VObj [x6c; x6b]) s1
        ∧ ∀ w', bpk_get (s1.1, w') = Ok (VObj [x6c; x6b]) (s1.1, w').
Proof.
  eexists. split; [reflexivity|].
  apply (bpk_get_cached demo_bpk demo_bpk_world). reflexivity.
Defined.

Lemma bpk_get_missing_witness :
  bpk_get (demo_bpk, world0) = Raise (FileNotFoundError demo_path) (demo_bpk, world0).
Proof.
  apply (bpk_get_missing demo_bpk world0); reflexivity.
Defined.


Lemma bpk_get_after_close_witness :
  ∃ s1, bpk_close true (demo_bpk, demo_bpk_world) = Ok tt s1
        ∧ bpk_get s1 = Raise (FileNotFoundError demo_path) s1.
Proof.
  eexists. split; [reflexivity|].
  apply (bpk_get_after_close demo_bpk demo_bpk_world); reflexivity.
Defined.

(** The handle of the witnesses below is the one [persist_shm] returns. *)
Example persist_shm_demo :
  persist_shm (VObj [x6c; x6b]) world0
  = Ok demo_shm_one (set_mode (Some "save") demo_shm_one_world).
Proof. vm_compute. reflexivity. Qed.

Lemma shm_get_cached_witness :
  ∃ s1, shm_get (demo_shm_one, demo_shm_one_world) = Ok (VObj [x6c; x6b]) s1
        ∧ ∀ w', shm_get (s1.1, w') = Ok (VObj [x6c; x6b]) (s1.1, w').
Proof.
  eexists. split; [reflexivity|].
  apply (shm_get_cached demo_shm_one demo_shm_one_world). reflexivity.
Defined.

Lemma shm_get_missing_witness :
  ∃ n, shm_get (demo_shm, world0) = Raise (FileNotFoundError n) (demo_shm, world0)
       ∧ segments world0 !! n = None.
Proof.
  apply (shm_get_missing demo_shm world0 "psm_a" 2);
    [reflexivity|reflexivity|apply list_elem_of_here|reflexivity].
Defined.

Lemma shm_get_after_close_witness :
  ∃ h w1 s2,
    persist_shm (VObj [x6c; x6b]) world0 = Ok h w1
    ∧ shm_close true (h, w1) = Ok tt s2
    ∧ ∃ n, shm_get s2 = Raise (FileNotFoundError n) s2.
Proof.
  eexists _, _, _. split; [reflexivity|]. split; [reflexivity|].
  eapply (shm_get_after_close (VObj [x6c; x6b]) world0 _ _ true);
    [reflexivity|discriminate|reflexivity].
Defined.

End PersistFacts.

(** ** Top-N analysis *)

Module TopNFacts.

Import TopN.

Section Facts.

Context {V R K : Type} `{EqDecision V}.
Variable float : nat → R.
Variable no_kwargs : K.
Variable sort_keys : list V → list V.

Local Abbreviation RecListAnalysis := (@RecListAnalysis V R K).
Local Abbreviation frame := (@frame V).
Local Abbreviation compute := (@compute V R K _ sort_keys).
Local Abbreviation _iter_grouped := (@_iter_grouped V R K _ sort_keys).
Local Abbreviation _grouping_iter := (@_grouping_iter V _ sort_keys).
Local Abbreviation _grouping_count := (@_grouping_count V _).

Implicit Types (self : RecListAnalysis) (df recs truth : frame).

Lemma df_keys_eq self r_cols t_cols :
  _df_keys self r_cols t_cols =
  (filter (λ c, c ∉ t_cols) (group_columns self r_cols)
     ++ filter (λ c, c ∈ t_cols) (group_columns self r_cols),
   filter (λ c, c ∈ t_cols) (group_columns self r_cols)).
Proof. reflexivity. Qed.

Lemma df_keys_split self r_cols t_cols :
  ∃ ug,
    (_df_keys self r_cols t_cols).1 = ug ++ (_df_keys self r_cols t_cols).2
    ∧ Forall (λ c, c ∉ t_cols) ug
    ∧ Forall (λ c, c ∈ t_cols) (_df_keys self r_cols t_cols).2
    ∧ (_df_keys self r_cols t_cols).1 ≡ₚ group_columns self r_cols
    ∧ drop (length ug) (_df_keys self r_cols t_cols).1
      = (_df_keys self r_cols t_cols).2.
Proof.
  rewrite df_keys_eq. simpl.
  exists (filter (λ c, c ∉ t_cols) (group_columns self r_cols)).
  split; [done|]. split.
  { apply Forall_forall. intros c Hc. by apply list_elem_of_filter in Hc as [? _]. }
  split.
  { apply Forall_forall. intros c Hc. by apply list_elem_of_filter in Hc as [? _]. }
  split.
  - rewrite Permutation_app_comm. apply filter_app_complement.
  - by rewrite drop_app_length.
Qed.


(** X23.  With no group columns given, the key columns are exactly the
    columns of the recommendation frame other than [item], [rank],
    [score] and [rating]. *)
Theorem default_key_columns self r_cols t_cols c :
  group_cols self = None →
  c ∈ (_df_keys self r_cols t_cols).1
  ↔ c ∈ r_cols ∧ c ∉ DEFAULT_SKIP_COLS.
Proof.
  intros Hg.
  destruct (df_keys_split self r_cols t_cols)
    as (ug & _ & _ & _ & Hperm & _).
  rewrite Hperm. unfold group_columns. rewrite Hg.
  rewrite list_elem_of_filter. tauto.
Qed.

(** The slice [rec_key[-nt:]] equals the truth key unless the truth key
    is empty and the record key is not. *)
Lemma key_slice self r_cols t_cols :
  let keys := _df_keys self r_cols t_cols in
  keys.2 ≠ [] ∨ keys.1 = [] →
  neg_slice (length keys.2) keys.1 = keys.2.
Proof.
  rewrite df_keys_eq. simpl.
  set (ug := filter (λ c, c ∉ t_cols) _). set (tk := filter (λ c, c ∈ t_cols) _).
  intros Hor. unfold neg_slice.
  destruct tk as [|c tk'] eqn:Htk.
  - destruct Hor as [?|Hnil]; [done|].
    rewrite app_nil_r in Hnil. rewrite Hnil. done.
  - simpl length at 1.
    replace (length (ug ++ c :: tk') - length (c :: tk')) with (length ug)
      by (rewrite length_app; lia).
    by rewrite drop_app_length.
Qed.

(** *** Collecting results *)

Lemma rmap_fmap {A B C} (f : B → res (V:=V) C) (h : A → B) l :
  rmap f (h <$> l) = rmap (λ x, f (h x)) l.
Proof.
  induction l as [|x l IH]; [done|].
  rewrite fmap_cons. cbn [rmap]. by rewrite IH.
Qed.

Lemma rmap_Done {A B} (f : A → res (V:=V) B) (g : A → B) l :
  (∀ x, x ∈ l → f x = Done (g x)) → rmap f l = Done (g <$> l).
Proof.
  induction l as [|x l IH]; intros Hf; [done|].
  rewrite fmap_cons. cbn [rmap]. rewrite Hf by (by left). cbn [rbind].
  rewrite IH; [done|]. intros y Hy. apply Hf. by right.
Qed.

Lemma foldl_add_sum (l : list nat) n : foldl Nat.add n l = n + sum_list l.
Proof.
  revert n. induction l as [|x l IH]; intros n; simpl; [lia|].
  rewrite IH. lia.
Qed.

Lemma length_concat_sum {A} (ls : list (list A)) :
  length (concat ls) = sum_list (length <$> ls).
Proof.
  induction ls as [|l ls IH]; [done|].
  simpl. rewrite length_app, IH. done.
Qed.

(** *** Columns of the frames that grouping builds *)

Lemma lookup_col_is_Some c (cols : list (string * list V)) :
  c ∈ fst <$> cols → ∃ vs, lookup_col c cols = Some vs.
Proof.
  induction cols as [|[n vs] cols IH]; intros Hc.
  - by apply elem_of_nil in Hc.
  - simpl. destruct (decide (n = c)) as [->|Hne]; [eauto|].
    apply IH. simpl in Hc. apply elem_of_cons in Hc as [?|?]; [congruence|done].
Qed.

Lemma col_names_select mask df : col_names (select mask df) = col_names df.
Proof.
  unfold col_names, select; simpl. rewrite <- list_fmap_compose.
  by apply list_fmap_ext.
Qed.

Lemma drop_column_Done df c :
  c ∈ col_names df → drop_column df c = Done (dropped df c).
Proof. intros Hc. unfold drop_column. by rewrite bool_decide_true. Qed.

Lemma col_names_dropped df c c' :
  c' ∈ col_names df → c' ≠ c → c' ∈ col_names (dropped df c).
Proof.
  unfold col_names, dropped; simpl. intros Hc Hne.
  apply list_elem_of_fmap in Hc as ([n vs] & -> & Hin).
  apply list_elem_of_fmap. exists (n, vs). split; [done|].
  apply list_elem_of_filter. done.
Qed.

Lemma grouping_iter_last df c ksf :
  _grouping_iter df [c] ksf =
  rbind (groupby sort_keys df c)
    (rmap (λ g, rbind (drop_column g.2 c) (λ d, Done (ksf ++ [g.1], d)))).
Proof. reflexivity. Qed.

Lemma grouping_iter_cons df c c2 rest ksf :
  _grouping_iter df (c :: c2 :: rest) ksf =
  rbind (groupby sort_keys df c)
    (λ gs, rbind (rmap (λ g, rbind (drop_column g.2 c)
                               (λ d, _grouping_iter d (c2 :: rest) (ksf ++ [g.1])))
                    gs)
             (λ parts, Done (concat parts))).
Proof. reflexivity. Qed.

Lemma grouping_count_last df c :
  _grouping_count df [c] = rbind (getitem df c) (λ c_col, Done (nunique c_col)).
Proof. reflexivity. Qed.

Lemma grouping_count_cons df c c2 rest :
  _grouping_count df (c :: c2 :: rest) =
  rbind (getitem df c)
    (λ c_col,
       rbind (rmap (λ v, rbind (drop_column (select (eq_mask c_col v) df) c)
                           (λ subdf, _grouping_count subdf (c2 :: rest)))
                (unique c_col))
         (λ counts, Done (foldl Nat.add 0 counts))).
Proof. reflexivity. Qed.

(** Grouping by columns the frame has, each named once: the iteration
    does not raise, and the count is the number of groups it yields. *)
Lemma grouping_count_iter cols : ∀ df ksf,
  (∀ l, sort_keys l ≡ₚ l) →
  cols ≠ [] →
  NoDup cols →
  (∀ c, c ∈ cols → c ∈ col_names df) →
  ∃ gs, _grouping_iter df cols ksf = Done gs
        ∧ _grouping_count df cols = Done (length gs).
Proof.
  induction cols as [|c cols IH]; intros df ksf Hsort Hne Hnd Hin; [done|].
  apply NoDup_cons in Hnd as [Hc Hnd].
  destruct (lookup_col_is_Some c (columns df)) as [vs Hvs].
  { apply Hin. by left. }
  assert (∀ k, drop_column (select (eq_mask vs k) df) c
               = Done (dropped (select (eq_mask vs k) df) c)) as Hdrop.
  { intros k. apply drop_column_Done. rewrite col_names_select. apply Hin. by left. }
  destruct cols as [|c2 rest].
  - rewrite grouping_iter_last, grouping_count_last.
    unfold groupby, getitem. rewrite Hvs. simpl.
    rewrite rmap_fmap. simpl.
    erewrite (rmap_Done _ (λ k, (ksf ++ [k], dropped (select (eq_mask vs k) df) c))).
    + eexists. split; [reflexivity|].
      rewrite length_fmap. unfold nunique. by rewrite Hsort.
    + intros k _. by rewrite Hdrop.
  - rewrite grouping_iter_cons, grouping_count_cons.
    unfold groupby, getitem. rewrite Hvs. simpl.
    rewrite rmap_fmap. simpl.
    set (part := λ k, match _grouping_iter (dropped (select (eq_mask vs k) df) c)
                              (c2 :: rest) (ksf ++ [k]) with
                      | Done gs => gs
                      | Fail _ => []
                      end).
    assert (∀ k, _grouping_iter (dropped (select (eq_mask vs k) df) c)
                   (c2 :: rest) (ksf ++ [k]) = Done (part k)
                 ∧ _grouping_count (dropped (select (eq_mask vs k) df) c)
                     (c2 :: rest) = Done (length (part k))) as Hpart.
    { intros k.
      destruct (IH (dropped (select (eq_mask vs k) df) c) (ksf ++ [k]))
        as (gs & Hit & Hcnt); [done|done|done| |].
      - intros c' Hc'. apply col_names_dropped.
        + rewrite col_names_select. apply Hin. by right.
        + intros ->. done.
      - unfold part. rewrite Hit. done. }
    erewrite (rmap_Done _ part).
    2:{ intros k _. rewrite Hdrop. simpl. apply Hpart. }
    erewrite (rmap_Done _ (λ k, length (part k))).
    2:{ intros k _. rewrite Hdrop. simpl. apply Hpart. }
    simpl. eexists. split; [reflexivity|]. f_equal.
    rewrite foldl_add_sum, length_concat_sum. simpl.
    rewrite <- list_fmap_compose.
    rewrite (Hsort (unique vs)). done.
Qed.

(** X26.  Grouping a frame by one or more of its columns, each named
    once, does not raise, and [_grouping_count] returns exactly the
    number of groups [_grouping_iter] yields.  With a progress bar,
    [_iter_grouped] therefore creates it with the right total, updates it
    once per group and closes it. *)
Theorem iter_grouped_progress self df key :
  (∀ l, sort_keys l ≡ₚ l) →
  key ≠ [] →
  NoDup key →
  (∀ c, c ∈ key → c ∈ col_names df) →
  ∃ gs, _grouping_iter df key [] = Done gs
        ∧ _grouping_count df key = Done (length gs)
        ∧ _iter_grouped self df key =
            Done (gs, if progress self
                      then Some (mkProgress (length gs) (length gs) true)
                      else None).
Proof.
  intros Hsort Hne Hnd Hin.
  destruct (grouping_count_iter key df [] Hsort Hne Hnd Hin) as (gs & Hit & Hcnt).
  exists gs. split; [done|]. split; [done|].
  unfold TopN._iter_grouped. rewrite Hit, Hcnt. by destruct (progress self).
Qed.

(** *** Every row lands in one group *)

Lemma elem_of_unique (l : list V) x : x ∈ unique l ↔ x ∈ l.
Proof.
  induction l as [|y l IH]; [done|]. simpl.
  rewrite !elem_of_cons, list_elem_of_filter, IH.
  destruct (decide (x = y)); tauto.
Qed.

Lemma NoDup_unique (l : list V) : NoDup (unique l).
Proof.
  induction l as [|y l IH]; simpl; [constructor|].
  constructor.
  - rewrite list_elem_of_filter. tauto.
  - by apply NoDup_filter.
Qed.

Lemma count_mask_cons_ne (l : list V) x k :
  k ≠ x → count_true (eq_mask (x :: l) k) = count_true (eq_mask l k).
Proof.
  intros Hne. unfold count_true, eq_mask. rewrite fmap_cons.
  rewrite bool_decide_false by done. by rewrite filter_cons_False.
Qed.

Lemma count_mask_cons_eq (l : list V) x :
  count_true (eq_mask (x :: l) x) = S (count_true (eq_mask l x)).
Proof.
  unfold count_true, eq_mask. rewrite fmap_cons.
  rewrite bool_decide_true by done. by rewrite filter_cons_True.
Qed.

Lemma count_mask_notin (l : list V) x :
  x ∉ l → count_true (eq_mask l x) = 0.
Proof.
  induction l as [|y l IH]; intros Hx; [done|].
  apply not_elem_of_cons in Hx as [Hne Hx].
  rewrite count_mask_cons_ne by done. by apply IH.
Qed.

Lemma sum_filter_ne (f : V → nat) (u : list V) x :
  NoDup u →
  sum_list_with f u =
  sum_list_with f (filter (λ y, y ≠ x) u) + (if decide (x ∈ u) then f x else 0).
Proof.
  induction u as [|y u IH]; intros Hnd; [done|].
  apply NoDup_cons in Hnd as [Hy Hnd]. simpl.
  destruct (decide (y = x)) as [->|Hne].
  - rewrite filter_cons_False by naive_solver.
    rewrite decide_True by (by left).
    rewrite (IH Hnd). rewrite decide_False by done. lia.
  - rewrite filter_cons_True by done. simpl. rewrite (IH Hnd).
    destruct (decide (x ∈ u)) as [Hx|Hx].
    + rewrite decide_True by (by right). lia.
    + rewrite decide_False; [lia|].
      intros [?|?]%elem_of_cons; [congruence|done].
Qed.

Lemma sum_list_with_ext_in {A} (f g : A → nat) (l : list A) :
  (∀ x, x ∈ l → f x = g x) → sum_list_with f l = sum_list_with g l.
Proof.
  induction l as [|x l IH]; intros Hfg; [done|]. simpl.
  rewrite Hfg by (by left). rewrite IH; [done|].
  intros y Hy. apply Hfg. by right.
Qed.

(** The groups of a column cover it: the sizes of the masks of its
    distinct values add up to its length. *)
Lemma sum_counts (vs : list V) :
  sum_list_with (λ k, count_true (eq_mask vs k)) (unique vs) = length vs.
Proof.
  induction vs as [|x vs IH]; [done|].
  change (unique (x :: vs)) with (x :: filter (λ y, y ≠ x) (unique vs)).
  change (sum_list_with ?f (?a :: ?l)) with (f a + sum_list_with f l).
  cbv beta. rewrite count_mask_cons_eq.
  change (length (x :: vs)) with (S (length vs)).
  rewrite (sum_list_with_ext_in _ (λ k, count_true (eq_mask vs k))).
  2:{ intros k Hk. apply list_elem_of_filter in Hk as [Hne _].
      by apply count_mask_cons_ne. }
  rewrite <- IH.
  rewrite (sum_filter_ne (λ k, count_true (eq_mask vs k)) (unique vs) x)
    by apply NoDup_unique.
  destruct (decide (x ∈ unique vs)) as [Hx|Hx]; [lia|].
  rewrite count_mask_notin; [lia|]. by rewrite <- elem_of_unique.
Qed.

Lemma length_filter_mask {A} (mask : list bool) (l : list A) :
  length l = length mask → length (filter_mask mask l) = count_true mask.
Proof.
  revert l. induction mask as [|b mask IH]; intros [|x l] Hlen; try done.
  simpl in *. destruct b.
  - unfold count_true. rewrite filter_cons_True by done. simpl.
    f_equal. apply IH. lia.
  - unfold count_true. rewrite filter_cons_False by done.
    apply IH. lia.
Qed.

Lemma lookup_col_elem c (cols : list (string * list V)) vs :
  lookup_col c cols = Some vs → (c, vs) ∈ cols.
Proof.
  induction cols as [|[n ws] cols IH]; [done|]. simpl.
  destruct (decide (n = c)) as [->|Hne].
  - intros [= ->]. by left.
  - intros Hl. right. by apply IH.
Qed.

Lemma rectangular_group df c vs k :
  rectangular df →
  lookup_col c (columns df) = Some vs →
  rectangular (dropped (select (eq_mask vs k) df) c)
  ∧ nrows (dropped (select (eq_mask vs k) df) c) = count_true (eq_mask vs k)
  ∧ length vs = nrows df.
Proof.
  intros Hrect Hvs.
  assert (length vs = nrows df) as Hlen.
  { apply lookup_col_elem in Hvs.
    unfold rectangular in Hrect. rewrite Forall_forall in Hrect.
    apply (Hrect _ Hvs). }
  split; [|done].
  unfold rectangular, dropped, select; simpl.
  apply Forall_forall. intros [n ws] Hin.
  apply list_elem_of_filter in Hin as [_ Hin].
  apply list_elem_of_fmap in Hin as ([n' ws'] & Heq & Hin). simplify_eq.
  simpl. apply length_filter_mask.
  unfold rectangular in Hrect. rewrite Forall_forall in Hrect.
  pose proof (Hrect _ Hin) as Hl. simpl in Hl. rewrite Hl.
  unfold eq_mask. rewrite length_fmap. done.
Qed.

Lemma lookup_col_length df c vs :
  rectangular df → lookup_col c (columns df) = Some vs → length vs = nrows df.
Proof.
  intros Hrect Hvs. apply lookup_col_elem in Hvs.
  unfold rectangular in Hrect. rewrite Forall_forall in Hrect.
  apply (Hrect _ Hvs).
Qed.

Lemma sum_list_with_fmap_comp {A B} (f : B → nat) (g : A → B) l :
  sum_list_with f (g <$> l) = sum_list_with (λ x, f (g x)) l.
Proof.
  induction l as [|x l IH]; [done|]. rewrite fmap_cons. simpl. by rewrite IH.
Qed.

Lemma sum_list_with_concat_fmap {A B} (f : B → nat) (part : A → list B) l :
  sum_list_with f (concat (part <$> l)) =
  sum_list_with (λ k, sum_list_with f (part k)) l.
Proof.
  induction l as [|x l IH]; [done|].
  rewrite fmap_cons. simpl. rewrite sum_list_with_app, IH. done.
Qed.


(** X24.  When none of the group columns is a column of the truth
    frame, [compute] raises [IndexError]: grouping the truth frame by an
    empty key fails before anything is measured. *)
Theorem compute_no_shared_key self recs truth :
  Forall (λ c, c ∉ col_names truth) (group_columns self (col_names recs)) →
  compute self recs truth = Fail IndexError.
Proof.
  intros Hnone.
  assert (filter (λ c, c ∈ col_names truth)
            (group_columns self (col_names recs)) = []) as Htk.
  { induction Hnone as [|c l Hc _ IH]; [done|].
    rewrite filter_cons_False by done. exact IH. }
  unfold TopN.compute. rewrite df_keys_eq. cbn [fst snd]. rewrite Htk.
  unfold TopN._iter_grouped. by destruct (progress self).
Qed.

(** X25.  Whenever [compute] gets as far as its [assert] statement, that
    is, whenever grouping the truth frame by the truth key has not
    raised, the assertion holds: the record key does end with the truth
    key. *)
Theorem compute_assert_holds self recs truth tg :
  let keys := _df_keys self (col_names recs) (col_names truth) in
  _iter_grouped self truth keys.2 = Done tg →
  neg_slice (length keys.2) keys.1 = keys.2.
Proof.
  intros keys Hit. apply key_slice. left. intros Hnil.
  fold keys in Hnil. rewrite Hnil in Hit.
  unfold TopN._iter_grouped in Hit. by destruct (progress self).
Qed.

(** *** The measurement loop *)

Lemma rmap_inv {A B} (f : A → res (V:=V) B) l ys :
  rmap f l = Done ys → Forall2 (λ x y, f x = Done y) l ys.
Proof.
  revert ys. induction l as [|x l IH]; intros ys Hr.
  - simpl in Hr. injection Hr as <-. constructor.
  - simpl in Hr. destruct (f x) as [y|e] eqn:Hfx; [|done]. simpl in Hr.
    destruct (rmap f l) as [ys'|e]; [|done]. simpl in Hr.
    injection Hr as <-. constructor; [done|]. by apply IH.
Qed.

Lemma compute_inv self recs truth r :
  let keys := _df_keys self (col_names recs) (col_names truth) in
  compute self recs truth = Done r →
  index_names r = keys.1
  ∧ value_names r = (λ m, m.1.2) <$> metrics self
  ∧ ∃ tg truth_frames rg,
      _iter_grouped self truth keys.2 = Done tg
      ∧ rmap (λ g, rbind (set_index g.2 "item") (λ d, Done (g.1, d))) tg.1
        = Done truth_frames
      ∧ _iter_grouped self recs keys.1 = Done rg
      ∧ Forall2 (λ g row,
                   row.1 = g.1
                   ∧ length row.2 = length (metrics self)
                   ∧ ∃ g_truth,
                       dict_get (neg_slice (length keys.2) g.1) truth_frames
                         = Some g_truth
                       ∧ Forall2 (λ m v, call m.1.1 m.2 g.2 g_truth = Done v)
                           (metrics self) row.2)
          rg.1 (rows r).
Proof.
  intros keys. unfold TopN.compute. fold keys.
  destruct (_iter_grouped self truth keys.2) as [tg|e] eqn:Htg; [|done].
  cbn [rbind].
  destruct (rmap _ tg.1) as [tf|e] eqn:Htf; [|done]. cbn [rbind].
  destruct (bool_decide _); [|done].
  destruct (_iter_grouped self recs keys.1) as [rg|e] eqn:Hrg; [|done].
  cbn [rbind].
  destruct (rmap _ rg.1) as [rws|e] eqn:Hrws; [|done]. cbn [rbind].
  intros [= <-]. simpl. split; [done|]. split; [done|].
  exists tg, tf, rg. split; [done|]. split; [done|]. split; [done|].
  apply rmap_inv in Hrws.
  eapply Forall2_impl; [exact Hrws|].
  intros g row Hrow. simpl in Hrow.
  destruct (dict_get _ tf) as [g_truth|]; [|done].
  destruct (rmap _ (metrics self)) as [vals|e] eqn:Hvals; [|done].
  simpl in Hrow. injection Hrow as <-. simpl.
  apply rmap_inv in Hvals.
  split; [done|]. split; [symmetry; by eapply Forall2_length|].
  exists g_truth. done.
Qed.

(** X28.  When [compute] returns, its result is indexed by the record
    key and has one value column per metric, in the order of the metrics.
    It has one row per group of the recommendation frame, in the order
    of the groups, holding the group's key and one value per metric; and
    each of these groups had a truth frame under the last part of its
    key. *)
Theorem compute_rows self recs truth r :
  let keys := _df_keys self (col_names recs) (col_names truth) in
  compute self recs truth = Done r →
  index_names r = keys.1
  ∧ value_names r = (λ m, m.1.2) <$> metrics self
  ∧ ∃ tg truth_frames rg,
      _iter_grouped self truth keys.2 = Done tg
      ∧ rmap (λ g, rbind (set_index g.2 "item") (λ d, Done (g.1, d))) tg.1
        = Done truth_frames
      ∧ _iter_grouped self recs keys.1 = Done rg
      ∧ Forall2 (λ g row,
                   row.1 = g.1
                   ∧ length row.2 = length (metrics self)
                   ∧ ∃ g_truth,
                       dict_get (neg_slice (length keys.2) g.1) truth_frames
                         = Some g_truth
                       ∧ Forall2 (λ m v, call m.1.1 m.2 g.2 g_truth = Done v)
                           (metrics self) row.2)
          rg.1 (rows r).
Proof. apply compute_inv. Qed.

(** X29.  An analysis built by [RecListAnalysis(...)] and any number of
    [add_metric] calls measures [nrecs] first, with the [_length]
    function and no keyword arguments, and then the added metrics in the
    order they were added, each under the name given or else the
    function's own name; the group columns and the progress setting stay
    as constructed. *)
Theorem add_metric_order group_cols progress
    (adds : list (metric_fn (V:=V) (R:=R) (K:=K) * option string * K)) :
  let self := foldl (λ s a, add_metric s a.1.1 a.1.2 a.2)
                (__init__ float no_kwargs group_cols progress) adds in
  metrics self =
    (_length float, "nrecs", no_kwargs)
      :: ((λ a, (a.1.1, default (__name__ a.1.1) a.1.2, a.2)) <$> adds)
  ∧ TopN.group_cols self = group_cols
  ∧ TopN.progress self = progress.
Proof.
  cbv zeta.
  induction adds as [|a adds IH] using rev_ind; [done|].
  rewrite foldl_app. simpl.
  destruct IH as (Hm & Hg & Hp). rewrite Hm, Hg, Hp.
  rewrite fmap_app. done.
Qed.

(** X30.  For such an analysis, every row [compute] returns starts its
    values with [nrecs], the number of rows of the row's group. *)
Theorem compute_nrecs self recs truth r rest :
  metrics self = (_length float, "nrecs", no_kwargs) :: rest →
  compute self recs truth = Done r →
  head (value_names r) = Some "nrecs"
  ∧ ∃ rg,
      _iter_grouped self recs
        (_df_keys self (col_names recs) (col_names truth)).1 = Done rg
      ∧ Forall2 (λ g row, row.1 = g.1 ∧ head row.2 = Some (float (nrows g.2)))
          rg.1 (rows r).
Proof.
  intros Hm Hc.
  destruct (compute_inv self recs truth r Hc)
    as (_ & Hnames & tg & tf & rg & _ & _ & Hrg & Hrows).
  split; [by rewrite Hnames, Hm|].
  exists rg. split; [done|].
  eapply Forall2_impl; [exact Hrows|].
  intros g row (Hk & _ & g_truth & _ & Hvals). split; [done|].
  rewrite Hm in Hvals.
  apply Forall2_cons_inv_l in Hvals as (v & vs & Hv & _ & ->).
  simpl in Hv. by injection Hv as <-.
Qed.

End Facts.

(** Closed decidable facts about the example, by evaluation. *)
Ltac by_decide := apply (bool_decide_unpack _); vm_compute; exact I.

Lemma nat_sort_perm l : nat_sort l ≡ₚ l.
Proof. apply merge_sort_Permutation. Qed.

Lemma default_key_columns_witness :
  "user" ∈ (_df_keys (demo_analysis false) (col_names demo_recs)
              (col_names demo_truth)).1
  ↔ "user" ∈ col_names demo_recs ∧ "user" ∉ DEFAULT_SKIP_COLS.
Proof.
  apply (default_key_columns (demo_analysis false) (col_names demo_recs)
           (col_names demo_truth) "user").
  reflexivity.
Defined.

Lemma compute_no_shared_key_witness :
  compute nat_sort (demo_analysis false) demo_recs demo_truth_items
  = Fail IndexError.
Proof.
  apply (compute_no_shared_key nat_sort (demo_analysis false) demo_recs
           demo_truth_items).
  by_decide.
Defined.

Lemma compute_assert_holds_witness :
  neg_slice
    (length (_df_keys (demo_analysis false) (col_names demo_recs)
               (col_names demo_truth)).2)
    (_df_keys (demo_analysis false) (col_names demo_recs) (col_names demo_truth)).1
  = (_df_keys (demo_analysis false) (col_names demo_recs) (col_names demo_truth)).2.
Proof.
  eapply (compute_assert_holds nat_sort (demo_analysis false) demo_recs demo_truth).
  reflexivity.
Defined.

Lemma iter_grouped_progress_witness :
  ∃ gs, _grouping_iter nat_sort demo_recs ["user"] [] = Done gs
        ∧ _grouping_count demo_recs ["user"] = Done (length gs)
        ∧ _iter_grouped nat_sort (demo_analysis true) demo_recs ["user"] =
            Done (gs, if progress (demo_analysis true)
                      then Some (mkProgress (length gs) (length gs) true)
                      else None).
Proof.
  apply (iter_grouped_progress nat_sort (demo_analysis true) demo_recs ["user"]).
  - apply nat_sort_perm.
  - discriminate.
  - apply NoDup_singleton.
  - intros c Hc. apply list_elem_of_singleton in Hc as ->. by_decide.
Defined.


Lemma compute_rows_witness :
  ∃ r, compute nat_sort (demo_analysis false) demo_recs demo_truth = Done r
       ∧ index_names r = ["user"]
       ∧ value_names r = ["nrecs"]
       ∧ rows r = [([1], [2]); ([2], [2])].
Proof.
  eexists. split; [reflexivity|].
  split; [|split; reflexivity].
  apply (compute_rows nat_sort (demo_analysis false) demo_recs demo_truth).
  reflexivity.
Defined.

Lemma compute_nrecs_witness :
  ∃ r, compute nat_sort (demo_analysis false) demo_recs demo_truth = Done r
       ∧ head (value_names r) = Some "nrecs"
       ∧ ∃ rg,
           _iter_grouped nat_sort (demo_analysis false) demo_recs
             (_df_keys (demo_analysis false) (col_names demo_recs)
                (col_names demo_truth)).1 = Done rg
           ∧ Forall2 (λ g row, row.1 = g.1 ∧ head row.2 = Some (id (nrows g.2)))
               rg.1 (rows r).
Proof.
  eexists. split; [reflexivity|].
  eapply (compute_nrecs id tt nat_sort (demo_analysis false) demo_recs demo_truth);
    reflexivity.
Defined.

End TopNFacts.
